(** * The Boulder CA core: [ca/ca.go] and the [identifier] package

    A shallow embedding of the certificate authority's issuance code and of
    the ACME identifier helpers, with the properties of the specification
    stated and proved (or refuted) against it.

    Conventions.
    - A Go [[]byte] is a [list byte]; a nil slice and an empty slice both
      have length 0 and are both [[]].
    - A Go [string] is a [string] (a sequence of 8-bit characters).
    - A Go [error] is an [option error]: [None] is [nil].
    - A function returning [(T, error)] returns [Result T]. *)

From Stdlib Require Import ZArith NArith Lia Ascii String List Bool.
From Stdlib.Strings Require Import Byte.
From stdpp Require Import gmap strings list fin_maps pretty sorting.
Import ListNotations.

Local Open Scope string_scope.
Local Open Scope list_scope.

(* ===================================================================== *)
(** * Go errors *)
(* ===================================================================== *)

Module berrors.

(** [berrors.ErrorType]: the error kinds the CA surfaces. *)
Inductive ErrorType : Type :=
| InternalServer
| Malformed
| NotFound
| BadPublicKey.

#[global] Instance ErrorType_eq_dec : EqDecision ErrorType.
Proof. solve_decision. Defined.

End berrors.

(** Error values.  [errorString] is what [errors.New] and [fmt.Errorf]
    without a [%w] verb build; [wrapError] is [fmt.Errorf] with [%w];
    [BoulderError] is [*berrors.BoulderError]; [ErrLinting] is the sentinel
    [linter.ErrLinting]; [pkcs11Error] is [pkcs11.Error]; [runtimePanic]
    stands for a run-time panic (an index out of range, a nil pointer),
    which unwinds the call instead of returning. *)
Inductive error : Type :=
| errorString (s : string)
| wrapError (msg : string) (err : error)
| BoulderError (ty : berrors.ErrorType) (Detail : string)
| ErrLinting
| pkcs11Error (code : Z)
| runtimePanic (msg : string).

(** [err.Error()]. *)
Definition Error (e : error) : string :=
  match e with
  | errorString s => s
  | wrapError msg _ => msg
  | BoulderError _ d => d
  | ErrLinting => "failed lint(s)"
  | pkcs11Error c => "pkcs11: " +:+ pretty c
  | runtimePanic msg => msg
  end.

(** [errors.Is(err, ty)] for a [berrors.ErrorType] target: a [BoulderError]
    unwraps to its type. *)
Fixpoint errors_Is_type (e : error) (ty : berrors.ErrorType) : bool :=
  match e with
  | BoulderError t _ => bool_decide (t = ty)
  | wrapError _ e' => errors_Is_type e' ty
  | _ => false
  end.

(** [errors.Is(err, linter.ErrLinting)]. *)
Fixpoint errors_Is_ErrLinting (e : error) : bool :=
  match e with
  | ErrLinting => true
  | wrapError _ e' => errors_Is_ErrLinting e'
  | _ => false
  end.

(** [errors.As(err, &pkcs11Error)]. *)
Fixpoint errors_As_pkcs11 (e : error) : bool :=
  match e with
  | pkcs11Error _ => true
  | wrapError _ e' => errors_As_pkcs11 e'
  | _ => false
  end.

Inductive Result (A : Type) : Type :=
| Ok (a : A)
| Err (e : error).
Arguments Ok {A} a.
Arguments Err {A} e.

Definition is_Ok {A} (r : Result A) : bool :=
  match r with Ok _ => true | Err _ => false end.

Definition InternalServerError (msg : string) : error :=
  BoulderError berrors.InternalServer msg.

(* ===================================================================== *)
(** * Bytes and formatting *)
(* ===================================================================== *)

Definition quote : string := String (ascii_of_nat 34) EmptyString.

Definition hexDigit (n : N) : ascii :=
  ascii_of_N (if (n <? 10)%N then 48 + n else 87 + n)%N.

(** [fmt.Sprintf("%x", b)] and [hex.EncodeToString(b)]. *)
Fixpoint hexEncode (b : list byte) : string :=
  match b with
  | [] => EmptyString
  | x :: r =>
      String (hexDigit (N.shiftr (Byte.to_N x) 4))
        (String (hexDigit (N.land (Byte.to_N x) 15)) (hexEncode r))
  end.

#[global] Instance byte_eq_decision : EqDecision byte.
Proof.
  intros a b. destruct (N.eq_dec (Byte.to_N a) (Byte.to_N b)) as [H|H].
  - left. apply (f_equal Byte.of_N) in H. rewrite !Byte.of_to_N in H. congruence.
  - right. congruence.
Defined.

(** A byte from a number below 256. *)
Definition byteOf (n : N) : byte :=
  match Byte.of_N n with Some b => b | None => x00 end.

(* ===================================================================== *)
(** * [golang.org/x/crypto/cryptobyte]: the two functions the CA uses *)
(* ===================================================================== *)

Module cryptobyte.

(** [cryptobyte_asn1.SEQUENCE = Tag(16).Constructed()]. *)
Definition SEQUENCE : N := 0x30.

Definition wrap32 (n : N) : N := (n mod 2 ^ 32)%N.

(** [s.read(n)]: the first [n] bytes and the remainder, or failure. *)
Definition ReadBytes (s : list byte) (n : nat) : option (list byte * list byte) :=
  if (length s <? n)%nat then None else Some (take n s, drop n s).

(** The loop of [readUnsigned]: big-endian accumulation in a [uint32]. *)
Definition readUnsigned (v : list byte) : N :=
  fold_left (fun result b => wrap32 (N.lor (N.shiftl result 8) (Byte.to_N b))) v 0%N.

(** The header decoding of [readASN1]: from the input, the total length of
    the element (header included) and the header length, both [uint32]. *)
Definition elementLength (s : list byte) (lenByte : N) : option (N * N) :=
  if (N.land lenByte 0x80 =? 0)%N then
    Some (lenByte + 2, 2)%N
  else
    let lenLen := N.land lenByte 0x7f in
    if (lenLen =? 0)%N || (4 <? lenLen)%N
       || (length s <? 2 + N.to_nat lenLen)%nat then None
    else
      let len32 := readUnsigned (take (N.to_nat lenLen) (drop 2 s)) in
      if (len32 <? 128)%N then None
      else if (N.shiftr len32 ((lenLen - 1) * 8) =? 0)%N then None
      else
        let headerLen := (2 + lenLen)%N in
        if (wrap32 (headerLen + len32) <? len32)%N then None
        else Some (wrap32 (headerLen + len32), headerLen).

(** [readASN1(out, outTag, skipHeader)]: the tag, the element read and the
    rest of the input. *)
Definition readASN1 (s : list byte) (skipHeader : bool)
  : option (N * list byte * list byte) :=
  match s with
  | tag :: lenByte :: _ =>
      if (N.land (Byte.to_N tag) 0x1f =? 0x1f)%N then None
      else
        match elementLength s (Byte.to_N lenByte) with
        | None => None
        | Some (length, headerLen) =>
            match ReadBytes s (N.to_nat length) with
            | None => None
            | Some (out, rest) =>
                Some (Byte.to_N tag,
                      if skipHeader then drop (N.to_nat headerLen) out else out,
                      rest)
            end
        end
  | _ => None
  end.

(** [s.ReadASN1(&out, tag)]: the contents of the element and the rest. *)
Definition ReadASN1 (s : list byte) (tag : N) : option (list byte * list byte) :=
  match readASN1 s true with
  | Some (t, out, rest) => if (t =? tag)%N then Some (out, rest) else None
  | None => None
  end.

End cryptobyte.

(* ===================================================================== *)
(** * [tbsCertIsDeterministic] *)
(* ===================================================================== *)

Module core.

(** Modelled from the spec: [core.IsAnyNilOrZero] is declared in
    [core/util.go], which is not part of the sources at hand.  On a byte
    slice it reports a nil value or a zero value, that is a slice of
    length 0 (the specification: nil inputs are an error). *)
Definition IsNilOrZero_bytes (b : list byte) : bool :=
  bool_decide (length b = 0%nat).

(** Modelled from the spec: [core.IsAnyNilOrZero] on an [int64]. *)
Definition IsNilOrZero_int64 (n : Z) : bool := bool_decide (n = 0%Z).

End core.

(** The closure [extractTBSCertBytes]. *)
Definition extractTBSCertBytes (inputDERBytes : list byte) : Result (list byte) :=
  match cryptobyte.ReadASN1 inputDERBytes cryptobyte.SEQUENCE with
  | None => Err (errorString "malformed certificate")
  | Some (input, _) =>
      match cryptobyte.ReadASN1 input cryptobyte.SEQUENCE with
      | None => Err (errorString "malformed tbs certificate")
      | Some (tbs, _) =>
          if bool_decide (tbs = []) then
            Err (errorString "parsed RawTBSCertificate field was empty")
          else Ok tbs
      end
  end.

Definition tbsCertIsDeterministic (lintCertBytes leafCertBytes : list byte)
  : option error :=
  if core.IsNilOrZero_bytes lintCertBytes || core.IsNilOrZero_bytes leafCertBytes then
    Some (errorString "lintCertBytes of leafCertBytes were nil")
  else
    match extractTBSCertBytes lintCertBytes with
    | Err err =>
        Some (wrapError ("while extracting lint TBS cert: " +:+ Error err) err)
    | Ok lintRawTBSCert =>
        match extractTBSCertBytes leafCertBytes with
        | Err err =>
            Some (wrapError ("while extracting leaf TBS cert: " +:+ Error err) err)
        | Ok leafRawTBSCert =>
            if bool_decide (lintRawTBSCert = leafRawTBSCert) then None
            else
              Some (errorString
                      ("mismatch between lintCert and leafCert RawTBSCertificate DER bytes: "
                       +:+ quote +:+ hexEncode lintRawTBSCert +:+ quote +:+ " != "
                       +:+ quote +:+ hexEncode leafRawTBSCert +:+ quote))
        end
    end.

(** An input "parses" when its first element is a SEQUENCE whose contents
    start with a SEQUENCE; [tbs] is the contents of the inner one. *)
Definition parsesTBS (der tbs : list byte) : Prop :=
  ∃ input rest rest',
    cryptobyte.ReadASN1 der cryptobyte.SEQUENCE = Some (input, rest) ∧
    cryptobyte.ReadASN1 input cryptobyte.SEQUENCE = Some (tbs, rest').

(* ===================================================================== *)
(** * [math/big]: the two conversions the serial generator uses *)
(* ===================================================================== *)

Module big.

(** [z.SetBytes(buf)]: [buf] read as a big-endian unsigned integer. *)
Definition SetBytes (buf : list byte) : N :=
  fold_left (fun z b => (z * 256 + Byte.to_N b)%N) buf 0%N.

(** The bytes of [x], least significant first, without a zero at the top. *)
Fixpoint littleEndian (fuel : nat) (x : N) : list byte :=
  match fuel with
  | O => []
  | S fuel' =>
      if (x =? 0)%N then []
      else byteOf (x mod 256) :: littleEndian fuel' (x / 256)
  end.

(** [x.Bytes()]: the big-endian bytes of [x] with no leading zero byte. *)
Definition Bytes (x : N) : list byte :=
  rev (littleEndian (N.to_nat (N.size x)) x).

(** The value of a little-endian byte list. *)
Definition valueLE (l : list byte) : N :=
  fold_right (fun b z => (Byte.to_N b + 256 * z)%N) 0%N l.

End big.

(** The header of a DER length as [readASN1] accepts it: one byte below
    128 for the short form; else [0x80 + k] and the [k] bytes of the
    length, big-endian, [k] from 1 to 4, for a length of at least 128
    written without a leading zero byte. *)
Definition lengthHeader (header : list byte) (n : N) : Prop :=
  match header with
  | [] => False
  | first :: bytes =>
      if (Byte.to_N first <? 128)%N then bytes = [] ∧ Byte.to_N first = n
      else
        Byte.to_N first = (0x80 + N.of_nat (length bytes))%N ∧
        (1 ≤ length bytes ≤ 4)%nat ∧
        big.SetBytes bytes = n ∧ (128 ≤ n)%N ∧ head bytes ≠ Some x00
  end.

(* ===================================================================== *)
(** * Library functions taken as parameters *)
(* ===================================================================== *)

(** [net.IP] is a byte slice. *)
Definition IP : Type := list byte.

(** Library functions of [strings] and [net] whose tables are not modelled:
    [unicodeLower] is [strings.Map(unicode.ToLower, s)], the path
    [strings.ToLower] takes on a string with a byte above 0x7f;
    [IP_String] is [ip.String()]; [ParseIP] is [net.ParseIP], [None] for a
    nil result. *)
Class GoLib : Type := {
  unicodeLower : string → string;
  IP_String : IP → string;
  ParseIP : string → option IP;
}.

(* ===================================================================== *)
(** * [strings] and [slices] *)
(* ===================================================================== *)

Module strings.

Fixpoint mapBytes (f : ascii → ascii) (s : string) : string :=
  match s with
  | EmptyString => EmptyString
  | String c r => String (f c) (mapBytes f r)
  end.

Fixpoint isASCII (s : string) : bool :=
  match s with
  | EmptyString => true
  | String c r => (N_of_ascii c <? 0x80)%N && isASCII r
  end.

(** ['A' <= c && c <= 'Z'] gives [c + ('a' - 'A')]. *)
Definition lowerByte (c : ascii) : ascii :=
  let n := N_of_ascii c in
  if (65 <=? n)%N && (n <=? 90)%N then ascii_of_N (n + 32) else c.

(** [strings.ToLower]: on an ASCII-only string the upper-case letters are
    shifted; any other string goes through the Unicode tables. *)
Definition ToLower `{GoLib} (s : string) : string :=
  if isASCII s then mapBytes lowerByte s else unicodeLower s.

(** The [<] of Go strings: lexicographic on bytes. *)
Definition less (a b : string) : bool := String.ltb a b.

End strings.

Module slices.

Section Generic.
Context {E : Type} `{EqDecision E}.

(** The inner loop of [insertionSortCmpFunc]: [x] travels towards the
    front of the sorted prefix while [cmp(x, previous) < 0].  The prefix
    is held last element first. *)
Fixpoint insertBack (cmp : E → E → Z) (x : E) (prefixRev : list E) : list E :=
  match prefixRev with
  | [] => [x]
  | y :: r =>
      if (cmp x y <? 0)%Z then y :: insertBack cmp x r else x :: y :: r
  end.

(** [insertionSortCmpFunc(data, 0, len(data), cmp)]. *)
Definition insertionSortCmpFunc (cmp : E → E → Z) (data : list E) : list E :=
  rev (fold_left (fun prefixRev x => insertBack cmp x prefixRev) data []).

(** [slices.SortFunc].  The library sorts a slice of at most 12 elements
    by [insertionSortCmpFunc] and a longer one by pattern-defeating
    quicksort; [SortFunc_unique] below shows that under a total order
    every sorting procedure returns what this one returns. *)
Definition SortFunc (x : list E) (cmp : E → E → Z) : list E :=
  insertionSortCmpFunc cmp x.

(** The elements of [s] that differ from their predecessor. *)
Fixpoint compactFrom (prev : E) (s : list E) : list E :=
  match s with
  | [] => []
  | x :: r =>
      if decide (x = prev) then compactFrom prev r else x :: compactFrom x r
  end.

(** [slices.Compact]: each run of equal consecutive elements is replaced
    by one copy. *)
Definition Compact (s : list E) : list E :=
  match s with
  | [] => []
  | x :: r => x :: compactFrom x r
  end.
End Generic.

End slices.

(* ===================================================================== *)
(** * Package [identifier] *)
(* ===================================================================== *)

Module identifier.

(** [IdentifierType] is a named string type. *)
Definition IdentifierType : Type := string.
Definition TypeDNS : IdentifierType := "dns".
Definition TypeIP : IdentifierType := "ip".

Record ACMEIdentifier : Type := {
  Type_ : IdentifierType;
  Value : string;
}.

#[global] Instance ACMEIdentifier_eq_dec : EqDecision ACMEIdentifier.
Proof. solve_decision. Defined.

Definition NewDNS (domain : string) : ACMEIdentifier :=
  {| Type_ := TypeDNS; Value := domain |}.

Definition NewDNSSlice (input : list string) : list ACMEIdentifier :=
  fold_left (fun out in_ => out ++ [NewDNS in_]) input [].

(** The comparison function handed to [slices.SortFunc]. *)
Definition cmpIdent (a b : ACMEIdentifier) : Z :=
  if decide (Type_ a = Type_ b) then
    if decide (Value a = Value b) then 0
    else if strings.less (Value a) (Value b) then -1
    else 1
  else if bool_decide (Type_ a = "dns") && bool_decide (Type_ b = "ip") then -1
  else 1.

Section WithLib.
Context `{GoLib}.

Definition NewIP (ip : IP) : ACMEIdentifier :=
  {| Type_ := TypeIP; Value := IP_String ip |}.

Definition lowerValue (i : ACMEIdentifier) : ACMEIdentifier :=
  {| Type_ := Type_ i; Value := strings.ToLower (Value i) |}.

(** [Normalize]: lower-case every value in place, sort, compact. *)
Definition Normalize (idents : list ACMEIdentifier) : list ACMEIdentifier :=
  let idents := map lowerValue idents in
  let idents := slices.SortFunc idents cmpIdent in
  slices.Compact idents.

Definition fromX509 (commonName : string) (dnsNames : list string)
           (ipAddresses : list IP) : list ACMEIdentifier :=
  let sans := fold_left (fun sans name => sans ++ [NewDNS name]) dnsNames [] in
  let sans :=
    if decide (commonName ≠ "") then sans ++ [NewDNS commonName] else sans in
  let sans :=
    fold_left (fun sans ip =>
                 sans ++ [{| Type_ := TypeIP; Value := IP_String ip |}])
              ipAddresses sans in
  Normalize sans.

(** Modelled from the spec: the method [ACMEIdentifiers.ToValues], called
    by [issuePrecertificateInner], is not part of the sources at hand.
    It extracts the DNS names and the IP addresses of the identifiers
    (specification, precertificate path, step 5), in order, and fails on
    an identifier that is neither. *)
Fixpoint ToValues_loop (idents : list ACMEIdentifier)
         (dnsNames : list string) (ipAddresses : list IP)
  : Result (list string * list IP) :=
  match idents with
  | [] => Ok (dnsNames, ipAddresses)
  | ident :: rest =>
      if decide (Type_ ident = TypeDNS) then
        ToValues_loop rest (dnsNames ++ [Value ident]) ipAddresses
      else if decide (Type_ ident = TypeIP) then
        match ParseIP (Value ident) with
        | None => Err (errorString ("parsing IP address: " +:+ Value ident))
        | Some ip => ToValues_loop rest dnsNames (ipAddresses ++ [ip])
        end
      else
        Err (errorString ("evaluating identifier type: " +:+ Type_ ident
                          +:+ " for " +:+ Value ident))
  end.

Definition ToValues (idents : list ACMEIdentifier)
  : Result (list string * list IP) :=
  ToValues_loop idents [] [].
End WithLib.

(** An identifier of one of the two registered types. *)
Definition registered (a : ACMEIdentifier) : Prop :=
  Type_ a = TypeDNS ∨ Type_ a = TypeIP.

(** The order [Normalize] aims at: DNS before IP, then by value. *)
Definition identLt (a b : ACMEIdentifier) : Prop :=
  (Type_ a = TypeDNS ∧ Type_ b = TypeIP) ∨
  (Type_ a = Type_ b ∧ strings.less (Value a) (Value b) = true).

Definition identLe (a b : ACMEIdentifier) : Prop := a = b ∨ identLt a b.

End identifier.

(** A stand-in for the Unicode tables that only knows the ASCII letters,
    with textual IP addresses left as they are. *)
Definition asciiLib : GoLib := {|
  unicodeLower := strings.mapBytes strings.lowerByte;
  IP_String := fun ip => hexEncode ip;
  ParseIP := fun s => if decide (s = "") then None else Some [];
|}.

(* ===================================================================== *)
(** * The data of the CA *)
(* ===================================================================== *)

(** [time.Time], an instant on the time line. *)
Definition Time : Type := Z.

Module x509.

(** [x509.PublicKeyAlgorithm], an [int] enumeration. *)
Definition PublicKeyAlgorithm : Type := Z.
Definition UnknownPublicKeyAlgorithm : PublicKeyAlgorithm := 0%Z.
Definition RSA : PublicKeyAlgorithm := 1%Z.
Definition DSA : PublicKeyAlgorithm := 2%Z.
Definition ECDSA : PublicKeyAlgorithm := 3%Z.
Definition Ed25519 : PublicKeyAlgorithm := 4%Z.

(** [crypto.PublicKey], kept as an opaque encoding. *)
Definition PublicKey : Type := list byte.

(** The fields of [x509.CertificateRequest] the CA reads. *)
Record CertificateRequest : Type := {
  Raw : list byte;
  Subject_CommonName : string;
  DNSNames : list string;
  IPAddresses : list IP;
  PublicKeyAlgorithm_ : PublicKeyAlgorithm;
  PublicKey_ : PublicKey;
}.

(** The fields of [x509.Certificate] the CA reads; [Issuer] is the
    issuer name as [%s] prints it. *)
Record Certificate : Type := {
  SerialNumber : N;
  Issuer : string;
  RawIssuer : list byte;
}.

End x509.

Module issuance.

Definition NameID : Type := Z.

(** What the CA asks of an [*issuance.Issuer]: [Name()], [NameID()],
    [KeyType()], [IsActive()] and [Cert.NotAfter]. *)
Record Issuer : Type := {
  Name : string;
  NameID_ : NameID;
  KeyType : x509.PublicKeyAlgorithm;
  IsActive : bool;
  Cert_NotAfter : Time;
}.

#[global] Instance Issuer_eq_dec : EqDecision Issuer.
Proof. solve_decision. Defined.

(** [issuance.Profile] and [issuance.ProfileConfig], opaque to the CA. *)
Inductive Profile : Type := mkProfile (id : N).
Inductive ProfileConfig : Type := mkProfileConfig (id : N).

(** [ct.SignedCertificateTimestamp]. *)
Definition SCT : Type := list byte.

Record IssuanceRequest : Type := {
  PublicKey : x509.PublicKey;
  SubjectKeyId : list byte;
  Serial : list byte;
  DNSNames : list string;
  IPAddresses : list IP;
  CommonName : string;
  IncludeCTPoison : bool;
  NotBefore : Time;
  NotAfter : Time;
  sctList : list SCT;
}.

(** The opaque handle [Prepare] returns and [Issue] consumes. *)
Definition issuanceToken : Type := N.

End issuance.

Module sapb.

Record AddSerialRequest : Type := {
  Serial : string;
  RegID : Z;
  Created : Time;
  Expires : Time;
}.

Record AddCertificateRequest : Type := {
  Der : list byte;
  acRegID : Z;
  Issued : Time;
  IssuerNameID : Z;
  OcspNotReady : bool;
}.

End sapb.

Module capb.

Record IssueCertificateRequest : Type := {
  Csr : list byte;
  RegistrationID : Z;
  OrderID : Z;
  CertProfileName : string;
}.

End capb.

(** Functions of other packages that compute without side effects, taken
    as parameters: [x509.ParseCertificateRequest], [x509.ParseCertificate],
    [core.SerialToString], [x509.MarshalPKIXPublicKey], [asn1.Unmarshal]
    into the public-key structure (giving [BitString.Bytes]),
    [sha256.Sum256], [csrlib.CNFromCSR], [issuance.IssuerNameID],
    [issuance.RequestFromPrecert], [cttls.Unmarshal],
    [Profile.GenerateValidity] and [issuance.NewProfile]. *)
Class CALib : Type := {
  ParseCertificateRequest : list byte → Result x509.CertificateRequest;
  ParseCertificate : list byte → Result x509.Certificate;
  SerialToString : N → string;
  MarshalPKIXPublicKey : x509.PublicKey → Result (list byte);
  asn1_Unmarshal_pkixPublicKey : list byte → Result (list byte);
  sha256_Sum256 : list byte → list byte;
  CNFromCSR : x509.CertificateRequest → string;
  IssuerNameID : x509.Certificate → issuance.NameID;
  RequestFromPrecert :
    x509.Certificate → list issuance.SCT → Result issuance.IssuanceRequest;
  cttls_Unmarshal : list byte → Result issuance.SCT;
  GenerateValidity : issuance.Profile → Time → Time * Time;
  NewProfile : issuance.ProfileConfig → Result issuance.Profile;
}.

Definition certificateType : Type := string.
Definition precertType : certificateType := "precertificate".
Definition certType : certificateType := "certificate".

(** [issuanceEvent], the object of the audit log. *)
Record issuanceEvent : Type := {
  ev_CSR : string;
  ev_IssuanceRequest : issuance.IssuanceRequest;
  ev_Issuer : string;
  ev_OrderID : Z;
  ev_Profile : string;
  ev_Requester : Z;
  ev_Result_Precertificate : string;
  ev_Result_Certificate : string;
}.

Record issuerMaps : Type := {
  byAlg : gmap Z (list issuance.Issuer);
  byNameID : gmap Z issuance.Issuer;
}.

(** [profile] is a pointer: [None] is nil. *)
Record certProfileWithID : Type := {
  name : string;
  profile : option issuance.Profile;
}.

(** [rapb.SCTProviderClient]: only whether the field is nil matters. *)
Inductive SCTProviderClient : Type := sctProvider.

(** The fields of [certificateAuthorityImpl] that hold data; the Storage
    Authority, the policy authority, the clock, the log, the metrics and
    the tracer are reached through the calls of [call] below. *)
Record certificateAuthorityImpl : Type := {
  sctClient : option SCTProviderClient;
  issuers : issuerMaps;
  certProfiles : gmap string certProfileWithID;
  prefix : byte;
  maxNames : Z;
}.

(* ===================================================================== *)
(** * Start-up: issuer maps, profile map, the constructor *)
(* ===================================================================== *)

(** The loop of [makeIssuerMaps]. *)
Fixpoint makeIssuerMaps_loop (issuers : list issuance.Issuer)
         (issuersByAlg : gmap Z (list issuance.Issuer))
         (issuersByNameID : gmap Z issuance.Issuer)
  : Result (gmap Z (list issuance.Issuer) * gmap Z issuance.Issuer) :=
  match issuers with
  | [] => Ok (issuersByAlg, issuersByNameID)
  | issuer :: rest =>
      match issuersByNameID !! issuance.NameID_ issuer with
      | Some _ =>
          Err (errorString
                 ("two issuers with same NameID "
                  +:+ pretty (issuance.NameID_ issuer)
                  +:+ " (" +:+ issuance.Name issuer +:+ ") configured"))
      | None =>
          let issuersByNameID := <[issuance.NameID_ issuer := issuer]> issuersByNameID in
          let issuersByAlg :=
            if issuance.IsActive issuer then
              <[issuance.KeyType issuer :=
                  default [] (issuersByAlg !! issuance.KeyType issuer) ++ [issuer]]>
                issuersByAlg
            else issuersByAlg in
          makeIssuerMaps_loop rest issuersByAlg issuersByNameID
      end
  end.

Definition noIssuers (pool : option (list issuance.Issuer)) : bool :=
  match pool with
  | Some i => bool_decide (length i = 0%nat)
  | None => true
  end.

Definition makeIssuerMaps (issuers : list issuance.Issuer) : Result issuerMaps :=
  match makeIssuerMaps_loop issuers ∅ ∅ with
  | Err e => Err e
  | Ok (issuersByAlg, issuersByNameID) =>
      if noIssuers (issuersByAlg !! x509.ECDSA) then
        Err (errorString "no ECDSA issuers configured")
      else if noIssuers (issuersByAlg !! x509.RSA) then
        Err (errorString "no RSA issuers configured")
      else Ok {| byAlg := issuersByAlg; byNameID := issuersByNameID |}
  end.

(** The active issuers of a key type, in configuration order. *)
Definition activeIssuers (alg : x509.PublicKeyAlgorithm)
           (issuers : list issuance.Issuer) : list issuance.Issuer :=
  filter (λ i, issuance.IsActive i = true ∧ issuance.KeyType i = alg) issuers.

(** A map entry for a list: none for the empty list. *)
Definition entryOf {A} (l : list A) : option (list A) :=
  match l with [] => None | _ => Some l end.

(** What the two maps hold once the issuers [seen] have been processed. *)
Definition mapsOf (seen : list issuance.Issuer)
           (issuersByAlg : gmap Z (list issuance.Issuer))
           (issuersByNameID : gmap Z issuance.Issuer) : Prop :=
  (∀ id i, issuersByNameID !! id = Some i ↔ i ∈ seen ∧ issuance.NameID_ i = id) ∧
  (∀ alg, issuersByAlg !! alg = entryOf (activeIssuers alg seen)).

Section Startup.
Context `{CALib}.

(** The loop of [makeCertificateProfilesMap], over the entries of the
    map in the order the iteration yields them. *)
Fixpoint makeCertificateProfilesMap_loop
         (profiles : list (string * issuance.ProfileConfig))
         (profilesByName : gmap string certProfileWithID)
  : Result (gmap string certProfileWithID) :=
  match profiles with
  | [] => Ok profilesByName
  | (name, profileConfig) :: rest =>
      match NewProfile profileConfig with
      | Err err => Err err
      | Ok profile =>
          makeCertificateProfilesMap_loop rest
            (<[name := {| name := name; profile := Some profile |}]> profilesByName)
      end
  end.

Definition makeCertificateProfilesMap
           (profiles : gmap string issuance.ProfileConfig)
  : Result (gmap string certProfileWithID) :=
  if bool_decide (size profiles ≤ 0)%nat then
    Err (errorString "must pass at least one certificate profile")
  else makeCertificateProfilesMap_loop (map_to_list profiles) ∅.

Definition NewCertificateAuthorityImpl
           (sctService : option SCTProviderClient)
           (boulderIssuers : list issuance.Issuer)
           (certificateProfiles : gmap string issuance.ProfileConfig)
           (serialPrefix : byte)
           (maxNames : Z)
  : Result certificateAuthorityImpl :=
  if (Byte.to_N serialPrefix <? 0x01)%N || (0x7f <? Byte.to_N serialPrefix)%N then
    Err (errorString "serial prefix must be between 0x01 (1) and 0x7f (127)")
  else if bool_decide (length boulderIssuers = 0%nat) then
    Err (errorString "must have at least one issuer")
  else
    match makeCertificateProfilesMap certificateProfiles with
    | Err err => Err err
    | Ok certProfiles =>
        match makeIssuerMaps boulderIssuers with
        | Err err => Err err
        | Ok issuers =>
            Ok {| sctClient := sctService;
                  issuers := issuers;
                  certProfiles := certProfiles;
                  prefix := serialPrefix;
                  maxNames := maxNames |}
        end
    end.
End Startup.

(* ===================================================================== *)
(** * Calls to the collaborators, and programs that make them *)
(* ===================================================================== *)

(** The calls the CA makes to what lies outside it, indexed by the type of
    the answer.  A call that returns only an [error] answers an
    [option error]. *)
Inductive call : Type → Type :=
| rand_Read (n : nat) : call (Result (list byte))
| clk_Now : call Time
| mrand_IntN (n : nat) : call nat
| sa_AddSerial (req : sapb.AddSerialRequest) : call (option error)
| sa_AddPrecertificate (req : sapb.AddCertificateRequest) : call (option error)
| sa_SetCertificateStatusReady (serial : string) : call (option error)
| sa_GetCertificate (serial : string) : call (option error)
| sa_AddCertificate (req : sapb.AddCertificateRequest) : call (option error)
| csrlib_VerifyCSR (csr : x509.CertificateRequest) (maxNames : Z) : call (option error)
| issuer_Prepare (issuer : issuance.Issuer) (profile : option issuance.Profile)
    (req : issuance.IssuanceRequest)
  : call (Result (list byte * issuance.issuanceToken))
| issuer_Issue (issuer : issuance.Issuer) (token : issuance.issuanceToken)
  : call (Result (list byte))
| sctClient_GetSCTs (precertDER : list byte) : call (Result (list (list byte)))
| log_AuditErr (msg : string) : call unit
| log_AuditObject (msg : string) (obj : issuanceEvent) : call unit
| lintErrorCount_Inc : call unit
| signErrorCount_Inc (label : string) : call unit
| signatureCount_Inc (purpose issuer : string) : call unit
| certificates_Inc (profile : string) : call unit
| tracer_Start (spanName : string) (attributes : list (string * list string)) : call unit
| span_SetStatus (description : string) : call unit
| span_End : call unit.

(** A program: a result, or a call and what to do with its answer. *)
Inductive prog (A : Type) : Type :=
| Ret (a : A)
| Vis {R : Type} (c : call R) (k : R → prog A).
Arguments Ret {A} a.
Arguments Vis {A R} c k.

Fixpoint bind {A B} (m : prog A) (f : A → prog B) : prog B :=
  match m with
  | Ret a => f a
  | Vis c k => Vis c (fun r => bind (k r) f)
  end.

#[global] Instance prog_ret : MRet prog := @Ret.
#[global] Instance prog_bind : MBind prog := fun A B f m => bind m f.

Definition perform {R} (c : call R) : prog R := Vis c Ret.

(** One call and its answer, as observed from outside. *)
Inductive event : Type :=
| Ev {R : Type} (c : call R) (r : R).

Definition trace : Type := list event.

(** The collaborators: they answer each call and may change their own
    state [S] (the database, the clock, the random source). *)
Definition handler (S : Type) : Type := ∀ R, call R → S → R * S.

(** Running a program against the collaborators: the result, their final
    state and the calls made, in order. *)
Fixpoint run {S A} (h : handler S) (p : prog A) (s : S) : A * S * trace :=
  match p with
  | Ret a => (a, s, [])
  | Vis c k =>
      let '(r, s1) := h _ c s in
      let '(a, s2, t) := run h (k r) s1 in
      (a, s2, Ev c r :: t)
  end.

Definition result_of {S A} (h : handler S) (p : prog A) (s : S) : A :=
  fst (fst (run h p s)).
Definition trace_of {S A} (h : handler S) (p : prog A) (s : S) : trace :=
  snd (run h p s).

(* ===================================================================== *)
(** * The CA: [ca/ca.go] *)
(* ===================================================================== *)

(** [PublicKeyAlgorithm.String()]. *)
Definition algoName (algo : x509.PublicKeyAlgorithm) : string :=
  if bool_decide (algo = x509.RSA) then "RSA"
  else if bool_decide (algo = x509.DSA) then "DSA"
  else if bool_decide (algo = x509.ECDSA) then "ECDSA"
  else if bool_decide (algo = x509.Ed25519) then "Ed25519"
  else pretty algo.

Section CA.
Context `{GoLib} `{CALib}.

Definition FromCSR (csr : x509.CertificateRequest) : list identifier.ACMEIdentifier :=
  identifier.fromX509 (x509.Subject_CommonName csr) (x509.DNSNames csr)
                      (x509.IPAddresses csr).

Definition noteSignError (err : error) : prog unit :=
  if errors_As_pkcs11 err then perform (signErrorCount_Inc "HSM") else mret tt.

Definition randBits : nat := 136.

Definition generateSerialNumber (ca : certificateAuthorityImpl) : prog (Result N) :=
  let serialBytes := replicate (randBits / 8 + 1) x00 in
  let serialBytes := <[0%nat := prefix ca]> serialBytes in
  r ← perform (rand_Read (length (drop 1 serialBytes)));
  match r with
  | Err err =>
      let err := InternalServerError ("failed to generate serial: " +:+ Error err) in
      perform (log_AuditErr ("Serial randomness failed, err=[" +:+ Error err +:+ "]"));;
      mret (Err err)
  | Ok random =>
      let serialBytes := take 1 serialBytes ++ random in
      mret (Ok (big.SetBytes serialBytes))
  end.

Definition generateSKID (pk : x509.PublicKey) : Result (list byte) :=
  match MarshalPKIXPublicKey pk with
  | Err err => Err err
  | Ok pkBytes =>
      match asn1_Unmarshal_pkixPublicKey pkBytes with
      | Err err => Err err
      | Ok bitStringBytes => Ok (take 20 (sha256_Sum256 bitStringBytes))
      end
  end.

Definition ipStringsOf (ips : list IP) : list string :=
  fold_left (fun ipStrings ip => ipStrings ++ [IP_String ip]) ips [].

Definition issuePrecertificateInner
           (ca : certificateAuthorityImpl)
           (issueReq : capb.IssueCertificateRequest)
           (certProfile : certProfileWithID)
           (serialBigInt : N) (notBefore notAfter : Time)
  : prog (Result (list byte * certProfileWithID)) :=
  match ParseCertificateRequest (capb.Csr issueReq) with
  | Err err => mret (Err err)
  | Ok csr =>
  err ← perform (csrlib_VerifyCSR csr (maxNames ca));
  match err with
  | Some err => perform (log_AuditErr (Error err));; mret (Err err)
  | None =>
  let alg := x509.PublicKeyAlgorithm_ csr in
  match byAlg (issuers ca) !! alg with
  | None =>
      mret (Err (InternalServerError
                   ("no issuers found for public key algorithm " +:+ algoName alg)))
  | Some issuerPool =>
  if bool_decide (length issuerPool = 0%nat) then
    mret (Err (InternalServerError
                 ("no issuers found for public key algorithm " +:+ algoName alg)))
  else
  idx ← perform (mrand_IntN (length issuerPool));
  match issuerPool !! idx with
  | None => mret (Err (runtimePanic "index out of range"))
  | Some issuer =>
  if (issuance.Cert_NotAfter issuer <? notAfter)%Z then
    let err := InternalServerError
                 "cannot issue a certificate that expires after the issuer certificate" in
    perform (log_AuditErr (Error err));; mret (Err err)
  else
  match generateSKID (x509.PublicKey_ csr) with
  | Err err => mret (Err (wrapError ("computing subject key ID: " +:+ Error err) err))
  | Ok subjectKeyId =>
  let serialHex := SerialToString serialBigInt in
  match identifier.ToValues (FromCSR csr) with
  | Err err => mret (Err err)
  | Ok (dnsNames, ipAddresses) =>
  let req := {|
    issuance.PublicKey := x509.PublicKey_ csr;
    issuance.SubjectKeyId := subjectKeyId;
    issuance.Serial := big.Bytes serialBigInt;
    issuance.DNSNames := dnsNames;
    issuance.IPAddresses := ipAddresses;
    issuance.CommonName := CNFromCSR csr;
    issuance.IncludeCTPoison := true;
    issuance.NotBefore := notBefore;
    issuance.NotAfter := notAfter;
    issuance.sctList := [] |} in
  r ← perform (issuer_Prepare issuer (profile certProfile) req);
  match r with
  | Err err =>
      perform (log_AuditErr ("Preparing precert failed: serial=[" +:+ serialHex
                             +:+ "] err=[" +:+ Error err +:+ "]"));;
      (if errors_Is_ErrLinting err then perform lintErrorCount_Inc else mret tt);;
      mret (Err (InternalServerError
                   ("failed to prepare precertificate signing: " +:+ Error err)))
  | Ok (lintCertBytes, issuanceToken) =>
  now ← perform clk_Now;
  err ← perform (sa_AddPrecertificate {|
                   sapb.Der := lintCertBytes;
                   sapb.acRegID := capb.RegistrationID issueReq;
                   sapb.Issued := now;
                   sapb.IssuerNameID := issuance.NameID_ issuer;
                   sapb.OcspNotReady := true |});
  match err with
  | Some err => mret (Err err)
  | None =>
  let logEvent := {|
    ev_CSR := hexEncode (x509.Raw csr);
    ev_IssuanceRequest := req;
    ev_Issuer := issuance.Name issuer;
    ev_OrderID := capb.OrderID issueReq;
    ev_Profile := name certProfile;
    ev_Requester := capb.RegistrationID issueReq;
    ev_Result_Precertificate := "";
    ev_Result_Certificate := "" |} in
  perform (log_AuditObject "Signing precert" logEvent);;
  let ipStrings := ipStringsOf (x509.IPAddresses csr) in
  perform (tracer_Start "signing precert"
             [("serial", [serialHex]);
              ("issuer", [issuance.Name issuer]);
              ("certProfileName", [name certProfile]);
              ("names", x509.DNSNames csr);
              ("ipAddresses", ipStrings)]);;
  r ← perform (issuer_Issue issuer issuanceToken);
  match r with
  | Err err =>
      noteSignError err;;
      perform (log_AuditErr ("Signing precert failed: serial=[" +:+ serialHex
                             +:+ "] err=[" +:+ Error err +:+ "]"));;
      perform (span_SetStatus (Error err));;
      perform span_End;;
      mret (Err (InternalServerError ("failed to sign precertificate: " +:+ Error err)))
  | Ok certDER =>
  perform span_End;;
  match tbsCertIsDeterministic lintCertBytes certDER with
  | Some err => mret (Err err)
  | None =>
  perform (signatureCount_Inc precertType (issuance.Name issuer));;
  let logEvent := {|
    ev_CSR := "";
    ev_IssuanceRequest := req;
    ev_Issuer := issuance.Name issuer;
    ev_OrderID := capb.OrderID issueReq;
    ev_Profile := name certProfile;
    ev_Requester := capb.RegistrationID issueReq;
    ev_Result_Precertificate := hexEncode certDER;
    ev_Result_Certificate := "" |} in
  perform (log_AuditObject "Signing precert success" logEvent);;
  mret (Ok (certDER, {| name := name certProfile; profile := None |}))
  end end end end end end end end end end.

Definition issuePrecertificate
           (ca : certificateAuthorityImpl)
           (certProfile : certProfileWithID)
           (issueReq : capb.IssueCertificateRequest)
  : prog (Result (list byte)) :=
  r ← generateSerialNumber ca;
  match r with
  | Err err => mret (Err err)
  | Ok serialBigInt =>
  now ← perform clk_Now;
  match profile certProfile with
  | None => mret (Err (runtimePanic "nil pointer dereference"))
  | Some p =>
  let '(notBefore, notAfter) := GenerateValidity p now in
  let serialHex := SerialToString serialBigInt in
  let regID := capb.RegistrationID issueReq in
  created ← perform clk_Now;
  err ← perform (sa_AddSerial {|
                   sapb.Serial := serialHex;
                   sapb.RegID := regID;
                   sapb.Created := created;
                   sapb.Expires := notAfter |});
  match err with
  | Some err => mret (Err err)
  | None =>
  r ← issuePrecertificateInner ca issueReq certProfile serialBigInt notBefore notAfter;
  match r with
  | Err err => mret (Err err)
  | Ok (precertDER, _) =>
  err ← perform (sa_SetCertificateStatusReady serialHex);
  match err with
  | Some err => mret (Err err)
  | None => mret (Ok precertDER)
  end end end end end.

(** The loop over [sctBytes]. *)
Fixpoint unmarshalSCTs (sctBytes : list (list byte)) (scts : list issuance.SCT)
  : Result (list issuance.SCT) :=
  match sctBytes with
  | [] => Ok scts
  | singleSCTBytes :: rest =>
      match cttls_Unmarshal singleSCTBytes with
      | Err err => Err err
      | Ok sct => unmarshalSCTs rest (scts ++ [sct])
      end
  end.

Definition issueCertificateForPrecertificate
           (ca : certificateAuthorityImpl)
           (certProfile : certProfileWithID)
           (precertDER : list byte)
           (sctBytes : list (list byte))
           (regID orderID : Z)
  : prog (Result (list byte)) :=
  match ParseCertificate precertDER with
  | Err err => mret (Err err)
  | Ok precert =>
  let serialHex := SerialToString (x509.SerialNumber precert) in
  err ← perform (sa_GetCertificate serialHex);
  match err with
  | None =>
      let err := InternalServerError
                   ("issuance of duplicate final certificate requested: " +:+ serialHex) in
      perform (log_AuditErr (Error err));; mret (Err err)
  | Some err =>
  if negb (errors_Is_type err berrors.NotFound) then
    mret (Err (errorString ("error checking for duplicate issuance of " +:+ serialHex
                            +:+ ": " +:+ Error err)))
  else
  match unmarshalSCTs sctBytes [] with
  | Err err => mret (Err err)
  | Ok scts =>
  match byNameID (issuers ca) !! IssuerNameID precert with
  | None =>
      mret (Err (InternalServerError
                   ("no issuer found for Issuer Name " +:+ x509.Issuer precert)))
  | Some issuer =>
  match RequestFromPrecert precert scts with
  | Err err => mret (Err err)
  | Ok issuanceReq =>
  r ← perform (issuer_Prepare issuer (profile certProfile) issuanceReq);
  match r with
  | Err err =>
      perform (log_AuditErr ("Preparing cert failed: serial=[" +:+ serialHex
                             +:+ "] err=[" +:+ Error err +:+ "]"));;
      mret (Err (InternalServerError
                   ("failed to prepare certificate signing: " +:+ Error err)))
  | Ok (lintCertBytes, issuanceToken) =>
  let logEvent := {|
    ev_CSR := "";
    ev_IssuanceRequest := issuanceReq;
    ev_Issuer := issuance.Name issuer;
    ev_OrderID := orderID;
    ev_Profile := name certProfile;
    ev_Requester := regID;
    ev_Result_Precertificate := "";
    ev_Result_Certificate := "" |} in
  perform (log_AuditObject "Signing cert" logEvent);;
  let ipStrings := ipStringsOf (issuance.IPAddresses issuanceReq) in
  perform (tracer_Start "signing cert"
             [("serial", [serialHex]);
              ("issuer", [issuance.Name issuer]);
              ("certProfileName", [name certProfile]);
              ("names", issuance.DNSNames issuanceReq);
              ("ipAddresses", ipStrings)]);;
  r ← perform (issuer_Issue issuer issuanceToken);
  match r with
  | Err err =>
      noteSignError err;;
      perform (log_AuditErr ("Signing cert failed: serial=[" +:+ serialHex
                             +:+ "] err=[" +:+ Error err +:+ "]"));;
      perform (span_SetStatus (Error err));;
      perform span_End;;
      mret (Err (InternalServerError ("failed to sign certificate: " +:+ Error err)))
  | Ok certDER =>
  perform span_End;;
  match tbsCertIsDeterministic lintCertBytes certDER with
  | Some err => mret (Err err)
  | None =>
  perform (signatureCount_Inc certType (issuance.Name issuer));;
  perform (certificates_Inc (name certProfile));;
  let logEvent := {|
    ev_CSR := "";
    ev_IssuanceRequest := issuanceReq;
    ev_Issuer := issuance.Name issuer;
    ev_OrderID := orderID;
    ev_Profile := name certProfile;
    ev_Requester := regID;
    ev_Result_Precertificate := "";
    ev_Result_Certificate := hexEncode certDER |} in
  perform (log_AuditObject "Signing cert success" logEvent);;
  now ← perform clk_Now;
  err ← perform (sa_AddCertificate {|
                   sapb.Der := certDER;
                   sapb.acRegID := regID;
                   sapb.Issued := now;
                   sapb.IssuerNameID := 0;
                   sapb.OcspNotReady := false |});
  match err with
  | Some err =>
      perform (log_AuditErr ("Failed RPC to store at SA: serial=[" +:+ serialHex
                             +:+ "] err=[" +:+ hexEncode certDER +:+ "]"));;
      mret (Err err)
  | None => mret (Ok certDER)
  end end end end end end end end end.

Definition IssueCertificate
           (ca : certificateAuthorityImpl)
           (issueReq : capb.IssueCertificateRequest)
  : prog (Result (list byte)) :=
  if core.IsNilOrZero_bytes (capb.Csr issueReq)
     || core.IsNilOrZero_int64 (capb.RegistrationID issueReq)
     || core.IsNilOrZero_int64 (capb.OrderID issueReq) then
    mret (Err (InternalServerError "Incomplete issue certificate request"))
  else
  match sctClient ca with
  | None => mret (Err (errorString "IssueCertificate called with a nil SCT service"))
  | Some _ =>
  match certProfiles ca !! capb.CertProfileName issueReq with
  | None =>
      mret (Err (errorString ("the CA is incapable of using a profile named "
                              +:+ capb.CertProfileName issueReq)))
  | Some certProfile =>
  r ← issuePrecertificate ca certProfile issueReq;
  match r with
  | Err err => mret (Err err)
  | Ok precertDER =>
  r ← perform (sctClient_GetSCTs precertDER);
  match r with
  | Err err => mret (Err err)
  | Ok sctDER =>
  r ← issueCertificateForPrecertificate ca certProfile precertDER sctDER
        (capb.RegistrationID issueReq) (capb.OrderID issueReq);
  match r with
  | Err err => mret (Err err)
  | Ok certDER => mret (Ok certDER)
  end end end end end.
End CA.

(* ===================================================================== *)
(** * Observing a run *)
(* ===================================================================== *)

(** The calls that matter to the issuance protocol. *)
Inductive Op : Type :=
| OpAddSerial
| OpAddPrecertificate
| OpSetCertificateStatusReady
| OpGetCertificate
| OpAddCertificate
| OpPrepare
| OpIssue
| OpGetSCTs.

#[global] Instance Op_eq_dec : EqDecision Op.
Proof. solve_decision. Defined.

Definition isNil (e : option error) : bool :=
  match e with None => true | Some _ => false end.

(** The protocol call an event stands for, and whether it returned
    without an error. *)
Definition opOf (e : event) : option (Op * bool) :=
  match e with
  | Ev c r =>
      match c in call R return R → option (Op * bool) with
      | sa_AddSerial _ => fun r => Some (OpAddSerial, isNil r)
      | sa_AddPrecertificate _ => fun r => Some (OpAddPrecertificate, isNil r)
      | sa_SetCertificateStatusReady _ =>
          fun r => Some (OpSetCertificateStatusReady, isNil r)
      | sa_GetCertificate _ => fun r => Some (OpGetCertificate, isNil r)
      | sa_AddCertificate _ => fun r => Some (OpAddCertificate, isNil r)
      | issuer_Prepare _ _ _ => fun r => Some (OpPrepare, is_Ok r)
      | issuer_Issue _ _ => fun r => Some (OpIssue, is_Ok r)
      | sctClient_GetSCTs _ => fun r => Some (OpGetSCTs, is_Ok r)
      | _ => fun _ => None
      end r
  end.

Definition ops (t : trace) : list (Op * bool) := omap opOf t.

(** The calls of one kind in a run. *)
Definition count (o : Op) (t : trace) : nat :=
  length (filter (λ p, fst p = o) (ops t)).

(** The writes to the Storage Authority. *)
Definition isWrite (o : Op) : bool :=
  match o with
  | OpAddSerial | OpAddPrecertificate | OpSetCertificateStatusReady
  | OpAddCertificate => true
  | _ => false
  end.

(** The chain of the ordering guarantee: the writes and the signing. *)
Definition inChain (o : Op) : bool :=
  match o with
  | OpAddSerial | OpAddPrecertificate | OpIssue | OpSetCertificateStatusReady
  | OpAddCertificate => true
  | _ => false
  end.

Definition chain (t : trace) : list (Op * bool) :=
  filter (λ p, inChain (fst p) = true) (ops t).

(** No call after a failed one. *)
Fixpoint failureIsLast (l : list (Op * bool)) : bool :=
  match l with
  | [] => true
  | (_, ok) :: rest =>
      match rest with
      | [] => true
      | _ => ok && failureIsLast rest
      end
  end.

(** The increments of the [lint_errors] counter in a run. *)
Definition lintErrors (t : trace) : nat :=
  length (omap (λ e, match e with
                     | Ev lintErrorCount_Inc _ => Some tt
                     | _ => None
                     end) t).

(** The DER handed to each [AddPrecertificate]. *)
Definition precertificateDERs (t : trace) : list (list byte) :=
  omap (λ e, match e with
             | Ev (sa_AddPrecertificate req) _ => Some (sapb.Der req)
             | _ => None
             end) t.

(** The lint certificate of each successful [Prepare]. *)
Definition lintDERs (t : trace) : list (list byte) :=
  omap (λ e, match e with
             | Ev c r =>
                 match c in call R return R → option (list byte) with
                 | issuer_Prepare _ _ _ =>
                     fun r => match r with Ok (lint, _) => Some lint | Err _ => None end
                 | _ => fun _ => None
                 end r
             end) t.

(** The error of each failed [Prepare]. *)
Definition prepareErrors (t : trace) : list error :=
  omap (λ e, match e with
             | Ev c r =>
                 match c in call R return R → option error with
                 | issuer_Prepare _ _ _ =>
                     fun r => match r with Ok _ => None | Err err => Some err end
                 | _ => fun _ => None
                 end r
             end) t.

(** The request handed to each [Prepare]. *)
Definition prepareRequests (t : trace) : list issuance.IssuanceRequest :=
  omap (λ e, match e with
             | Ev (issuer_Prepare _ _ req) _ => Some req
             | _ => None
             end) t.

(** The issuer picked at each [Prepare]. *)
Definition prepareIssuers (t : trace) : list issuance.Issuer :=
  omap (λ e, match e with
             | Ev (issuer_Prepare issuer _ _) _ => Some issuer
             | _ => None
             end) t.

(** The index each [mrand.IntN] answered. *)
Definition picks (t : trace) : list nat :=
  omap (λ e, match e with
             | Ev c r =>
                 match c in call R return R → option nat with
                 | mrand_IntN _ => fun r => Some r
                 | _ => fun _ => None
                 end r
             end) t.

(** The length asked of each [rand.Read] and its answer. *)
Definition randomReads (t : trace) : list (nat * Result (list byte)) :=
  omap (λ e, match e with
             | Ev c r =>
                 match c in call R return R → option (nat * Result (list byte)) with
                 | rand_Read n => fun r => Some (n, r)
                 | _ => fun _ => None
                 end r
             end) t.

(** The error of each [GetCertificate], nil included. *)
Definition getCertificateAnswers (t : trace) : list (option error) :=
  omap (λ e, match e with
             | Ev c r =>
                 match c in call R return R → option (option error) with
                 | sa_GetCertificate _ => fun r => Some r
                 | _ => fun _ => None
                 end r
             end) t.

(* ===================================================================== *)
(** * A sample world, for running the definitions on concrete inputs *)
(* ===================================================================== *)

Definition sampleCSR : x509.CertificateRequest := {|
  x509.Raw := [x30; x00];
  x509.Subject_CommonName := "cn.example";
  x509.DNSNames := ["San.example"];
  x509.IPAddresses := [];
  x509.PublicKeyAlgorithm_ := x509.RSA;
  x509.PublicKey_ := [x01] |}.

(** A certificate-shaped DER: [30 09 (30 03 (02 01 05)) (03 02 00 sig)]. *)
Definition sampleDER (sig : byte) : list byte :=
  [x30; x09; x30; x03; x02; x01; x05; x03; x02; x00; sig].

Definition samplePrecert : x509.Certificate := {|
  x509.SerialNumber := 0x7f01;
  x509.Issuer := "CN=sample RSA issuer";
  x509.RawIssuer := [] |}.

Definition sampleFinalRequest : issuance.IssuanceRequest := {|
  issuance.PublicKey := [x01];
  issuance.SubjectKeyId := [];
  issuance.Serial := [x7f; x01];
  issuance.DNSNames := ["san.example"];
  issuance.IPAddresses := [];
  issuance.CommonName := "";
  issuance.IncludeCTPoison := false;
  issuance.NotBefore := 0%Z;
  issuance.NotAfter := 100%Z;
  issuance.sctList := [] |}.

Definition sampleCALib : CALib := {|
  ParseCertificateRequest := fun der =>
    if bool_decide (der = []) then Err (errorString "asn1: syntax error") else Ok sampleCSR;
  ParseCertificate := fun der =>
    if bool_decide (der = []) then Err (errorString "x509: malformed certificate")
    else Ok samplePrecert;
  SerialToString := fun serial => hexEncode (big.Bytes serial);
  MarshalPKIXPublicKey := fun pk => Ok pk;
  asn1_Unmarshal_pkixPublicKey := fun der => Ok der;
  sha256_Sum256 := fun b => b;
  CNFromCSR := fun csr => x509.Subject_CommonName csr;
  IssuerNameID := fun cert => 11%Z;
  RequestFromPrecert := fun cert scts => Ok sampleFinalRequest;
  cttls_Unmarshal := fun b => Ok b;
  GenerateValidity := fun p now => (now - 3600, now + 7776000)%Z;
  NewProfile := fun cfg => match cfg with issuance.mkProfileConfig id => Ok (issuance.mkProfile id) end;
|}.

Definition sampleRSA : issuance.Issuer := {|
  issuance.Name := "sample RSA issuer";
  issuance.NameID_ := 11%Z;
  issuance.KeyType := x509.RSA;
  issuance.IsActive := true;
  issuance.Cert_NotAfter := 100000000%Z |}.

Definition sampleECDSA : issuance.Issuer := {|
  issuance.Name := "sample ECDSA issuer";
  issuance.NameID_ := 12%Z;
  issuance.KeyType := x509.ECDSA;
  issuance.IsActive := true;
  issuance.Cert_NotAfter := 100000000%Z |}.

(** An issuer whose own certificate expires early. *)
Definition sampleShortRSA : issuance.Issuer := {|
  issuance.Name := "sample short-lived RSA issuer";
  issuance.NameID_ := 13%Z;
  issuance.KeyType := x509.RSA;
  issuance.IsActive := true;
  issuance.Cert_NotAfter := 5000%Z |}.

Definition sampleProfile : certProfileWithID :=
  {| name := "classic"; profile := Some (issuance.mkProfile 1) |}.

Definition sampleCAWith (pool : list issuance.Issuer) : certificateAuthorityImpl := {|
  sctClient := Some sctProvider;
  issuers := {| byAlg := {[ x509.RSA := pool; x509.ECDSA := [sampleECDSA] ]};
                byNameID := {[ 11%Z := sampleRSA; 12%Z := sampleECDSA ]} |};
  certProfiles := {[ "classic" := sampleProfile ]};
  prefix := x7f;
  maxNames := 100 |}.

Definition sampleCA : certificateAuthorityImpl := sampleCAWith [sampleRSA].

Definition sampleRequest : capb.IssueCertificateRequest := {|
  capb.Csr := [x30; x00];
  capb.RegistrationID := 1;
  capb.OrderID := 2;
  capb.CertProfileName := "classic" |}.

Definition notFound : error := BoulderError berrors.NotFound "certificate not found".

(** The error each collaborator answers with when all is well: none,
    except that the Storage Authority knows of no final certificate. *)
Definition healthy (o : Op) : option error :=
  match o with OpGetCertificate => Some notFound | _ => None end.

(** The same, with one collaborator answering [e]. *)
Definition answering (o : Op) (e : option error) (o' : Op) : option error :=
  if decide (o' = o) then e else healthy o'.

(** Collaborators scripted by the error of each operation; their state is
    the clock. *)
Definition sampleWorld (script : Op → option error) : handler Z :=
  fun R c =>
    match c in call R return Z → R * Z with
    | rand_Read n => fun now => (Ok (replicate n xab), now)
    | clk_Now => fun now => (now, (now + 1)%Z)
    | mrand_IntN n => fun now => (0%nat, now)
    | sa_AddSerial _ => fun now => (script OpAddSerial, now)
    | sa_AddPrecertificate _ => fun now => (script OpAddPrecertificate, now)
    | sa_SetCertificateStatusReady _ =>
        fun now => (script OpSetCertificateStatusReady, now)
    | sa_GetCertificate _ => fun now => (script OpGetCertificate, now)
    | sa_AddCertificate _ => fun now => (script OpAddCertificate, now)
    | csrlib_VerifyCSR _ _ => fun now => (None, now)
    | issuer_Prepare _ _ _ =>
        fun now => (match script OpPrepare with
                    | Some e => Err e
                    | None => Ok (sampleDER xaa, 1%N)
                    end, now)
    | issuer_Issue _ _ =>
        fun now => (match script OpIssue with
                    | Some e => Err e
                    | None => Ok (sampleDER xbb)
                    end, now)
    | sctClient_GetSCTs _ =>
        fun now => (match script OpGetSCTs with
                    | Some e => Err e
                    | None => Ok [[x00; x01]]
                    end, now)
    | log_AuditErr _ => fun now => (tt, now)
    | log_AuditObject _ _ => fun now => (tt, now)
    | lintErrorCount_Inc => fun now => (tt, now)
    | signErrorCount_Inc _ => fun now => (tt, now)
    | signatureCount_Inc _ _ => fun now => (tt, now)
    | certificates_Inc _ => fun now => (tt, now)
    | tracer_Start _ _ => fun now => (tt, now)
    | span_SetStatus _ => fun now => (tt, now)
    | span_End => fun now => (tt, now)
    end.

(** The CA functions with the sample libraries plugged in. *)
Definition sampleIssueCertificate :=
  @IssueCertificate asciiLib sampleCALib.
Definition sampleIssuePrecertificate :=
  @issuePrecertificate asciiLib sampleCALib.
Definition sampleIssuePrecertificateInner :=
  @issuePrecertificateInner asciiLib sampleCALib.
Definition sampleIssueCertificateForPrecertificate :=
  @issueCertificateForPrecertificate asciiLib sampleCALib.

(** A start-up configuration the constructor accepts. *)
Definition sampleProfiles : gmap string issuance.ProfileConfig :=
  {[ "classic" := issuance.mkProfileConfig 1 ]}.
Definition sampleIssuers : list issuance.Issuer := [sampleRSA; sampleECDSA].

(** Identifiers of the two registered types, with upper-case letters and a
    duplicate. *)
Definition sampleIdents : list identifier.ACMEIdentifier :=
  [ identifier.NewDNS "b.Example";
    {| identifier.Type_ := "ip"; identifier.Value := "192.0.2.1" |};
    identifier.NewDNS "A.example";
    identifier.NewDNS "b.example" ].


(** The request the sample precertificate path hands to [Prepare]. *)
Definition samplePrecertRequest : issuance.IssuanceRequest := {|
  issuance.PublicKey := [x01];
  issuance.SubjectKeyId := [x01];
  issuance.Serial := [x7f; x01];
  issuance.DNSNames := ["cn.example"; "san.example"];
  issuance.IPAddresses := [];
  issuance.CommonName := "cn.example";
  issuance.IncludeCTPoison := true;
  issuance.NotBefore := 0%Z;
  issuance.NotAfter := 10000%Z;
  issuance.sctList := [] |}.

(** A complete request for a profile that is not configured, and an
    incomplete one. *)
Definition unknownProfileRequest : capb.IssueCertificateRequest := {|
  capb.Csr := [x30; x00];
  capb.RegistrationID := 1;
  capb.OrderID := 2;
  capb.CertProfileName := "modern" |}.

Definition incompleteRequest : capb.IssueCertificateRequest := {|
  capb.Csr := [];
  capb.RegistrationID := 1;
  capb.OrderID := 2;
  capb.CertProfileName := "modern" |}.


(* ===================================================================== *)
(** * Further observations of a run *)
(* ===================================================================== *)

(** The requests of each [AddSerial]. *)
Definition addSerialRequests (t : trace) : list sapb.AddSerialRequest :=
  omap (λ e, match e with
             | Ev (sa_AddSerial req) _ => Some req
             | _ => None
             end) t.

(** The serial of each [SetCertificateStatusReady]. *)
Definition readySerials (t : trace) : list string :=
  omap (λ e, match e with
             | Ev (sa_SetCertificateStatusReady serial) _ => Some serial
             | _ => None
             end) t.

(** The serial of each [GetCertificate]. *)
Definition checkedSerials (t : trace) : list string :=
  omap (λ e, match e with
             | Ev (sa_GetCertificate serial) _ => Some serial
             | _ => None
             end) t.

(** The requests of each [AddPrecertificate] and [AddCertificate]. *)
Definition addPrecertificateRequests (t : trace) : list sapb.AddCertificateRequest :=
  omap (λ e, match e with
             | Ev (sa_AddPrecertificate req) _ => Some req
             | _ => None
             end) t.

Definition addCertificateRequests (t : trace) : list sapb.AddCertificateRequest :=
  omap (λ e, match e with
             | Ev (sa_AddCertificate req) _ => Some req
             | _ => None
             end) t.

(** The DER each successful [Issue] returned, and the error of each
    failed one. *)
Definition issuedDERs (t : trace) : list (list byte) :=
  omap (λ e, match e with
             | Ev c r =>
                 match c in call R return R → option (list byte) with
                 | issuer_Issue _ _ =>
                     fun r => match r with Ok der => Some der | Err _ => None end
                 | _ => fun _ => None
                 end r
             end) t.

Definition issueErrors (t : trace) : list error :=
  omap (λ e, match e with
             | Ev c r =>
                 match c in call R return R → option error with
                 | issuer_Issue _ _ =>
                     fun r => match r with Ok _ => None | Err err => Some err end
                 | _ => fun _ => None
                 end r
             end) t.

(** The answer of each [VerifyCSR] and of each [GetSCTs]. *)
Definition verifyAnswers (t : trace) : list (option error) :=
  omap (λ e, match e with
             | Ev c r =>
                 match c in call R return R → option (option error) with
                 | csrlib_VerifyCSR _ _ => fun r => Some r
                 | _ => fun _ => None
                 end r
             end) t.

Definition getSCTsErrors (t : trace) : list error :=
  omap (λ e, match e with
             | Ev c r =>
                 match c in call R return R → option error with
                 | sctClient_GetSCTs _ =>
                     fun r => match r with Ok _ => None | Err err => Some err end
                 | _ => fun _ => None
                 end r
             end) t.

(** The bound handed to each [mrand.IntN]. *)
Definition pickBounds (t : trace) : list nat :=
  omap (λ e, match e with
             | Ev (mrand_IntN n) _ => Some n
             | _ => None
             end) t.

(** The messages of the audit-error log, and the increments of the
    [signature_errors] counter with their label. *)
Definition auditErrs (t : trace) : list string :=
  omap (λ e, match e with
             | Ev (log_AuditErr msg) _ => Some msg
             | _ => None
             end) t.

Definition signErrors (t : trace) : list string :=
  omap (λ e, match e with
             | Ev (signErrorCount_Inc label) _ => Some label
             | _ => None
             end) t.

(** The calls of a run of [IssueCertificate] in which every collaborator
    lets the issuance go on: each call succeeds, except that the Storage
    Authority finds no final certificate. *)
Definition issuanceProtocol : list (Op * bool) :=
  [(OpAddSerial, true); (OpPrepare, true); (OpAddPrecertificate, true);
   (OpIssue, true); (OpSetCertificateStatusReady, true); (OpGetSCTs, true);
   (OpGetCertificate, false); (OpPrepare, true); (OpIssue, true);
   (OpAddCertificate, true)].

(** [l] follows [protocol]: it is an initial part of it, or an initial
    part followed by the next call with the other outcome. *)
Fixpoint follows (protocol l : list (Op * bool)) : bool :=
  match l, protocol with
  | [], _ => true
  | (o, ok) :: l', (o', ok') :: protocol' =>
      bool_decide (o = o') &&
      (if bool_decide (ok = ok') then follows protocol' l'
       else bool_decide (l' = []))
  | _ :: _, [] => false
  end.

(* ===================================================================== *)
(** * Package [web]: the request event ([web/context.go]) *)
(* ===================================================================== *)

Module web.

Section RequestEvents.
(** [float64], the values of [map[string]interface{}] and the arguments of
    [fmt.Sprintf] are left abstract, as are [fmt.Sprintf] and
    [json.Marshal] themselves. *)
Context {float64 Value Arg : Type}.
Context (Sprintf : string → list Arg → string).

Record RequestEvent : Type := {
  Method : string;
  Endpoint : string;
  Requester : Z;
  Code : Z;
  Latency : float64;
  RealIP : string;
  Slug : string;
  InternalErrors : list string;
  Error_ : string;
  IgnoredRateLimitError : string;
  UserAgent : string;
  Origin : string;
  Extra : gmap string Value;
  Created : string;
  Status : string;
  Identifiers : list identifier.ACMEIdentifier;
  ChallengeType : string;
  suppressed : bool;
}.

Definition setErrors (e : RequestEvent) (errs : list string) (s : bool) : RequestEvent :=
  {| Method := Method e; Endpoint := Endpoint e; Requester := Requester e;
     Code := Code e; Latency := Latency e; RealIP := RealIP e; Slug := Slug e;
     InternalErrors := errs;
     Error_ := Error_ e; IgnoredRateLimitError := IgnoredRateLimitError e;
     UserAgent := UserAgent e; Origin := Origin e; Extra := Extra e;
     Created := Created e; Status := Status e; Identifiers := Identifiers e;
     ChallengeType := ChallengeType e;
     suppressed := s |}.

(** [e.AddError(msg, args...)]. *)
Definition AddError (e : RequestEvent) (msg : string) (args : list Arg) : RequestEvent :=
  setErrors e (InternalErrors e ++ [Sprintf msg args]) false.

(** [e.Suppress()]. *)
Definition Suppress (e : RequestEvent) : RequestEvent :=
  if bool_decide (length (InternalErrors e) = 0%nat) then
    setErrors e (InternalErrors e) true
  else e.

(** An event is consistent when it is not both suppressed and carrying
    an internal error. *)
Definition consistent (e : RequestEvent) : Prop :=
  suppressed e = true → InternalErrors e = [].

(** What a handler does to the event. *)
Inductive action : Type :=
| DoAddError (msg : string) (args : list Arg)
| DoSuppress.

Definition act (e : RequestEvent) (a : action) : RequestEvent :=
  match a with
  | DoAddError msg args => AddError e msg args
  | DoSuppress => Suppress e
  end.

(** What [TopHandler.logEvent] writes. *)
Inductive logLine : Type :=
| Infof (method endpoint : string) (requester code millis : Z)
        (realIP jsonEvent : string)
| AuditErrf (msg : string).

Context (Marshal : RequestEvent → Result string).
Context (millis : float64 → Z).
Context (formatMarshalError : error → string).

(** [th.logEvent(logEvent)]: nothing for a suppressed event. *)
Definition logEvent (e : RequestEvent) : option logLine :=
  if suppressed e then None
  else
    match Marshal e with
    | Err err => Some (AuditErrf (formatMarshalError err))
    | Ok jsonEvent =>
        Some (Infof (Method e) (Endpoint e) (Requester e) (Code e)
                    (millis (Latency e)) (RealIP e) jsonEvent)
    end.

(** [GetClientAddr], from the [X-Forwarded-For] header and [RemoteAddr]. *)
Definition GetClientAddr (xff remoteAddr : string) : string :=
  if bool_decide (xff ≠ "") then xff +:+ "," +:+ remoteAddr else remoteAddr.

End RequestEvents.

End web.

(* ===================================================================== *)
(** * More of the sample world *)
(* ===================================================================== *)

(** The sample collaborators with a random source and a policy check that
    may fail as well. *)
Definition scriptedWorld (randomError verifyError : option error)
           (script : Op → option error) : handler Z :=
  fun R c =>
    match c in call R return Z → R * Z with
    | rand_Read n =>
        fun now => (match randomError with
                    | Some e => Err e
                    | None => Ok (replicate n xab)
                    end, now)
    | csrlib_VerifyCSR _ _ => fun now => (verifyError, now)
    | c' => sampleWorld script _ c'
    end.

(** A sample event of the web front end and what the sample libraries do
    with it. *)
Definition sampleEvent : @web.RequestEvent Z string := {|
  web.Method := "POST"; web.Endpoint := "/acme/new-order"; web.Requester := 1;
  web.Code := 0; web.Latency := 0%Z; web.RealIP := "192.0.2.7"; web.Slug := "";
  web.InternalErrors := []; web.Error_ := ""; web.IgnoredRateLimitError := "";
  web.UserAgent := "sample"; web.Origin := ""; web.Extra := ∅;
  web.Created := ""; web.Status := ""; web.Identifiers := [];
  web.ChallengeType := ""; web.suppressed := false |}.

Definition sampleSprintf (msg : string) (args : list string) : string :=
  fold_left (λ acc a, acc +:+ " " +:+ a) args msg.

Definition sampleActions : list (@web.action string) :=
  [web.DoSuppress; web.DoAddError "storage failure" ["timeout"]; web.DoSuppress].

(* ===================================================================== *)
(** * Properties *)
(* ===================================================================== *)

Lemma extractTBSCertBytes_Ok der tbs :
  extractTBSCertBytes der = Ok tbs ↔ parsesTBS der tbs ∧ tbs ≠ [].
Proof.
  unfold extractTBSCertBytes, parsesTBS. split.
  - destruct (cryptobyte.ReadASN1 der _) as [[input rest]|] eqn:E1; [|discriminate].
    destruct (cryptobyte.ReadASN1 input _) as [[t rest']|] eqn:E2; [|discriminate].
    case_bool_decide; [discriminate|].
    intros [= <-]. split; [|done]. by exists input, rest, rest'.
  - intros [(input & rest & rest' & -> & ->) Hne].
    case_bool_decide; congruence.
Qed.

Lemma ReadASN1_nil tag : cryptobyte.ReadASN1 [] tag = None.
Proof. reflexivity. Qed.

(** C1: [tbsCertIsDeterministic] returns nil exactly when both inputs are
    non-empty (hence non-nil), each parses as an outer SEQUENCE holding an
    inner SEQUENCE with non-empty contents, and the two inner contents are
    equal byte for byte; every other input yields an error. *)
Theorem tbsCertIsDeterministic_nil_iff (lintDER signedDER : list byte) :
  tbsCertIsDeterministic lintDER signedDER = None ↔
  lintDER ≠ [] ∧ signedDER ≠ [] ∧
  ∃ lintTBS signedTBS,
    parsesTBS lintDER lintTBS ∧ lintTBS ≠ [] ∧
    parsesTBS signedDER signedTBS ∧ signedTBS ≠ [] ∧
    lintTBS = signedTBS.
Proof.
  unfold tbsCertIsDeterministic, core.IsNilOrZero_bytes. split.
  - destruct lintDER as [|a l]; [discriminate|].
    destruct signedDER as [|b m]; [discriminate|]. simpl.
    destruct (extractTBSCertBytes (a :: l)) as [t1|] eqn:E1; [|discriminate].
    destruct (extractTBSCertBytes (b :: m)) as [t2|] eqn:E2; [|discriminate].
    case_bool_decide; [|discriminate]. intros _.
    apply extractTBSCertBytes_Ok in E1 as [? ?].
    apply extractTBSCertBytes_Ok in E2 as [? ?].
    repeat split; try discriminate. eauto 10.
  - intros (Hl & Hs & t1 & t2 & P1 & N1 & P2 & N2 & ->).
    destruct lintDER; [done|]. destruct signedDER; [done|]. simpl.
    rewrite (proj2 (extractTBSCertBytes_Ok _ t2)) by done.
    rewrite (proj2 (extractTBSCertBytes_Ok _ t2)) by done.
    by rewrite bool_decide_eq_true_2.
Qed.

Lemma byte_to_N_lt (b : byte) : (Byte.to_N b < 256)%N.
Proof. pose proof (Byte.to_N_bounded b). lia. Qed.

Lemma byteOf_to_N (b : byte) : byteOf (Byte.to_N b) = b.
Proof. unfold byteOf. by rewrite Byte.of_to_N. Qed.

Lemma to_N_byteOf (n : N) : (n < 256)%N → Byte.to_N (byteOf n) = n.
Proof.
  intros H. unfold byteOf. destruct (Byte.of_N n) as [b|] eqn:E.
  - by apply Byte.to_of_N.
  - apply Byte.of_N_None_iff in E. lia.
Qed.

Lemma SetBytes_app (l : list byte) (b : byte) :
  big.SetBytes (l ++ [b]) = (big.SetBytes l * 256 + Byte.to_N b)%N.
Proof. unfold big.SetBytes. by rewrite fold_left_app. Qed.

Lemma SetBytes_valueLE (l : list byte) : big.SetBytes (rev l) = big.valueLE l.
Proof.
  induction l as [|b l IH]; [done|].
  simpl rev. rewrite SetBytes_app, IH. simpl. lia.
Qed.

Lemma littleEndian_zero fuel : big.littleEndian fuel 0 = [].
Proof. by destruct fuel. Qed.

(** Decoding then encoding gives the bytes back when the most significant
    byte is not zero. *)
Lemma littleEndian_valueLE (l : list byte) :
  ∀ fuel, (big.valueLE l < 2 ^ N.of_nat fuel)%N →
          last l ≠ Some x00 →
          big.littleEndian fuel (big.valueLE l) = l.
Proof.
  induction l as [|b l IH]; intros fuel Hlt Hlast.
  - simpl. apply littleEndian_zero.
  - simpl in Hlt. pose proof (byte_to_N_lt b) as Hb.
    assert (Hnz : (Byte.to_N b + 256 * big.valueLE l ≠ 0)%N).
    { destruct l as [|c l].
      - simpl. intros H0. apply Hlast. simpl. f_equal.
        rewrite <- (byteOf_to_N b). replace (Byte.to_N b) with 0%N by lia. done.
      - intros H0. assert (Hz : big.valueLE (c :: l) = 0%N) by lia.
        assert (Hl : last (c :: l) ≠ Some x00) by (by rewrite last_cons_cons in Hlast).
        specialize (IH 0%nat). rewrite Hz in IH. simpl in IH.
        specialize (IH ltac:(lia) Hl). discriminate. }
    destruct fuel as [|fuel].
    { simpl in Hlt. lia. }
    simpl. destruct (N.eqb_spec (Byte.to_N b + 256 * big.valueLE l) 0); [done|].
    replace ((Byte.to_N b + 256 * big.valueLE l) mod 256)%N with (Byte.to_N b).
    2:{ apply N.mod_unique with (q := big.valueLE l); lia. }
    replace ((Byte.to_N b + 256 * big.valueLE l) / 256)%N with (big.valueLE l).
    2:{ apply N.div_unique with (r := Byte.to_N b); lia. }
    rewrite byteOf_to_N. f_equal. apply IH.
    + rewrite Nat2N.inj_succ, N.pow_succ_r' in Hlt. lia.
    + destruct l; [done|]. by rewrite last_cons_cons in Hlast.
Qed.

Lemma valueLE_littleEndian fuel :
  ∀ x, (x < 2 ^ N.of_nat fuel)%N → big.valueLE (big.littleEndian fuel x) = x.
Proof.
  induction fuel as [|fuel IH]; intros x Hx.
  - simpl in *. lia.
  - simpl. destruct (N.eqb_spec x 0); [done|]. simpl.
    rewrite to_N_byteOf by (apply N.mod_lt; lia).
    rewrite IH.
    + pose proof (N.div_mod x 256). lia.
    + rewrite Nat2N.inj_succ, N.pow_succ_r' in Hx.
      apply N.Div0.div_lt_upper_bound. lia.
Qed.

Lemma size_fuel (x : N) : (x < 2 ^ N.of_nat (N.to_nat (N.size x)))%N.
Proof. rewrite N2Nat.id. apply N.size_gt. Qed.

(** [SetBytes] after [Bytes] is the identity. *)
Lemma SetBytes_Bytes (x : N) : big.SetBytes (big.Bytes x) = x.
Proof.
  unfold big.Bytes. rewrite SetBytes_valueLE.
  apply valueLE_littleEndian, size_fuel.
Qed.

(** [Bytes] after [SetBytes] is the identity on a buffer whose first byte
    is not zero. *)
Lemma Bytes_SetBytes (buf : list byte) :
  head buf ≠ Some x00 → big.Bytes (big.SetBytes buf) = buf.
Proof.
  intros Hhd. unfold big.Bytes.
  rewrite <- (rev_involutive buf) at 1 2. rewrite SetBytes_valueLE.
  rewrite littleEndian_valueLE.
  - apply rev_involutive.
  - apply size_fuel.
  - rewrite rev_alt. change (rev_append buf []) with (reverse buf).
    by rewrite last_reverse.
Qed.


(* --------------------------------------------------------------------- *)
(** ** Sorting and compacting *)
(* --------------------------------------------------------------------- *)

Section SortFacts.
Context {E : Type} `{EqDecision E} (cmp : E → E → Z).

Abbreviation below x y := ((cmp x y <? 0)%Z = true).

Lemma insertBack_Permutation (x : E) (l : list E) : slices.insertBack cmp x l ≡ₚ x :: l.
Proof.
  induction l as [|y l IH]; simpl; [done|].
  destruct (cmp x y <? 0)%Z; [|done].
  rewrite IH. apply Permutation_swap.
Qed.

Lemma SortFunc_Permutation (l : list E) : slices.SortFunc l cmp ≡ₚ l.
Proof.
  unfold slices.SortFunc, slices.insertionSortCmpFunc.
  rewrite <- Permutation_rev.
  assert (G : ∀ acc, fold_left (λ p x, slices.insertBack cmp x p) l acc ≡ₚ l ++ acc).
  { induction l as [|x l IH]; intros acc; simpl; [done|].
    rewrite IH, insertBack_Permutation. by rewrite Permutation_middle. }
  rewrite G. by rewrite app_nil_r.
Qed.

(** The order the comparison function induces, on the elements of [P]. *)
Variable P : E → Prop.
Hypothesis below_asym : ∀ a b, P a → P b → below a b → ¬ below b a.
Hypothesis below_trans :
  ∀ a b c, P a → P b → P c → below a b → below b c → below a c.
Hypothesis below_total : ∀ a b, P a → P b → a = b ∨ below a b ∨ below b a.

Definition upTo (a b : E) : Prop := P a ∧ P b ∧ (a = b ∨ below a b).
Definition strictlyBelow (a b : E) : Prop := P a ∧ P b ∧ below a b.

Lemma upTo_trans a b c : upTo a b → upTo b c → upTo a c.
Proof.
  intros (Pa & Pb & Hab) (_ & Pc & Hbc). split; [done|]. split; [done|].
  destruct Hab as [->|Hab], Hbc as [->|Hbc];
    [by left|by right|by right|right; by apply (below_trans a b c)].
Qed.

Lemma below_irrefl a : P a → ¬ below a a.
Proof. intros Pa Ha. by apply (below_asym a a). Qed.

(** The prefix, last element first, is in descending order. *)
Lemma insertBack_sorted (x : E) (l : list E) :
  P x → Forall P l →
  StronglySorted (flip upTo) l →
  StronglySorted (flip upTo) (slices.insertBack cmp x l).
Proof.
  intros Px Pl Hs. induction Hs as [|y l Hs IH Hy]; simpl.
  - repeat constructor.
  - apply Forall_cons in Pl as [Py Pl].
    destruct (cmp x y <? 0)%Z eqn:Hxy.
    + constructor; [by apply IH|].
      rewrite insertBack_Permutation. constructor; [|done].
      unfold flip, upTo. eauto.
    + assert (Hyx : upTo y x).
      { unfold upTo. destruct (below_total x y Px Py) as [->|[?|?]]; eauto.
        congruence. }
      constructor; [by constructor|]. constructor; [done|].
      eapply Forall_impl; [exact Hy|]. intros z Hz. unfold flip in *.
      by eapply upTo_trans.
Qed.

Lemma flip_sorted_rev (R : relation E) l :
  StronglySorted (flip R) l → StronglySorted R (rev l).
Proof.
  induction 1 as [|x l Hs IH Hx]; simpl; [constructor|].
  apply StronglySorted_app_2; [|done|repeat constructor].
  intros a b Ha Hb. apply list_elem_of_singleton in Hb as ->.
  rewrite Forall_forall in Hx. apply Hx.
  apply list_elem_of_In, (proj2 (in_rev l a)). by apply list_elem_of_In.
Qed.

Lemma SortFunc_sorted (l : list E) :
  Forall P l → StronglySorted upTo (slices.SortFunc l cmp).
Proof.
  intros Pl. unfold slices.SortFunc, slices.insertionSortCmpFunc.
  apply flip_sorted_rev.
  assert (G : ∀ acc, Forall P acc → StronglySorted (flip upTo) acc →
              StronglySorted (flip upTo)
                (fold_left (λ p x, slices.insertBack cmp x p) l acc)).
  { induction Pl as [|x l Px Pl IH]; intros acc Pacc Hacc; simpl; [done|].
    apply IH.
    - rewrite insertBack_Permutation. by constructor.
    - by apply insertBack_sorted. }
  apply G; constructor.
Qed.

Lemma upTo_antisym a b : upTo a b → upTo b a → a = b.
Proof.
  intros (Pa & Pb & [?|Hab]) (_ & _ & [?|Hba]); try done.
  by destruct (below_asym a b).
Qed.

(** Any procedure that returns a sorted permutation returns what
    [SortFunc] returns. *)
Lemma SortFunc_unique (l l' : list E) :
  Forall P l → l' ≡ₚ l → StronglySorted upTo l' → l' = slices.SortFunc l cmp.
Proof.
  intros Pl Hp Hs.
  apply (StronglySorted_unique_strong upTo); [|done|by apply SortFunc_sorted|].
  - intros a b _ _. apply upTo_antisym.
  - by rewrite SortFunc_Permutation.
Qed.

Lemma compactFrom_subseteq (prev : E) (l : list E) (x : E) :
  x ∈ slices.compactFrom prev l → x ∈ l.
Proof.
  revert prev. induction l as [|y l IH]; intros prev; simpl; [done|].
  destruct (decide (y = prev)).
  - intros Hx. right. by eapply IH.
  - intros [->|Hx]%elem_of_cons; [by left|]. right. by eapply IH.
Qed.

Lemma compactFrom_elem (prev : E) (l : list E) (x : E) :
  x ∈ l → x = prev ∨ x ∈ slices.compactFrom prev l.
Proof.
  revert prev. induction l as [|y l IH]; intros prev; simpl; [by inversion 1|].
  intros [->|Hx]%elem_of_cons.
  - destruct (decide (y = prev)); [by left|]. right. by left.
  - destruct (decide (y = prev)) as [->|]; [by apply IH|].
    destruct (IH y Hx) as [->|?]; right; [by left|by right].
Qed.

Lemma Compact_elem (l : list E) (x : E) : x ∈ slices.Compact l ↔ x ∈ l.
Proof.
  destruct l as [|y l]; simpl; [done|]. rewrite !elem_of_cons. split.
  - intros [->|Hx]; [by left|]. right. by eapply compactFrom_subseteq.
  - intros [->|Hx]; [by left|]. destruct (compactFrom_elem y l x Hx); eauto.
Qed.

Lemma compactFrom_sorted (x : E) (l : list E) :
  StronglySorted upTo (x :: l) →
  StronglySorted strictlyBelow (x :: slices.compactFrom x l).
Proof.
  revert x. induction l as [|y l IH]; intros x Hs; simpl.
  - repeat constructor.
  - apply StronglySorted_cons in Hs as [Hx Hs].
    apply Forall_cons in Hx as [Hxy Hx].
    destruct (decide (y = x)) as [->|Hne].
    + by apply IH.
    + specialize (IH y Hs). constructor; [done|].
      destruct Hxy as (Px & Py & [->|Hxy]); [done|].
      assert (Hlt : strictlyBelow x y) by done.
      constructor; [done|].
      apply StronglySorted_cons in IH as [IH _].
      eapply Forall_impl; [exact IH|]. intros z (_ & Pz & Hyz).
      split; [done|]. split; [done|]. by eapply (below_trans x y z).
Qed.

Lemma Compact_sorted (l : list E) :
  StronglySorted upTo l → StronglySorted strictlyBelow (slices.Compact l).
Proof.
  destruct l as [|x l]; simpl; [constructor|]. apply compactFrom_sorted.
Qed.

Lemma strictlyBelow_NoDup (l : list E) : StronglySorted strictlyBelow l → NoDup l.
Proof.
  induction 1 as [|x l Hs IH Hx]; constructor; [|done].
  intros Hin. rewrite Forall_forall in Hx.
  destruct (Hx x Hin) as (Px & _ & Hxx).
  by apply (below_irrefl x).
Qed.

Lemma strictlyBelow_upTo (l : list E) :
  StronglySorted strictlyBelow l → StronglySorted upTo l.
Proof.
  induction 1 as [|x l Hs IH Hx]; constructor; [done|].
  eapply Forall_impl; [exact Hx|]. intros z (? & ? & ?). unfold upTo. eauto.
Qed.

Lemma compactFrom_id (x : E) (l : list E) :
  StronglySorted strictlyBelow (x :: l) → slices.compactFrom x l = l.
Proof.
  revert x. induction l as [|y l IH]; intros x Hs; simpl; [done|].
  apply StronglySorted_cons in Hs as [Hx Hs].
  apply Forall_cons in Hx as [(Px & Py & Hxy) Hx].
  destruct (decide (y = x)) as [->|Hne].
  - by destruct (below_irrefl x).
  - f_equal. by apply IH.
Qed.

Lemma Compact_id (l : list E) : StronglySorted strictlyBelow l → slices.Compact l = l.
Proof.
  destruct l as [|x l]; simpl; [done|]. intros Hs. f_equal.
  by apply compactFrom_id.
Qed.

Lemma SortFunc_id (l : list E) :
  Forall P l → StronglySorted upTo l → slices.SortFunc l cmp = l.
Proof. intros Pl Hs. symmetry. by apply SortFunc_unique. Qed.
End SortFacts.

(* --------------------------------------------------------------------- *)
(** ** The order on strings and on identifiers *)
(* --------------------------------------------------------------------- *)

Lemma compare_refl (s : string) : (s ?= s)%string = Eq.
Proof.
  induction s as [|c s IH]; simpl; [done|].
  unfold Ascii.compare. by rewrite N.compare_refl.
Qed.

Lemma compare_Lt_trans (a b c : string) :
  (a ?= b)%string = Lt → (b ?= c)%string = Lt → (a ?= c)%string = Lt.
Proof.
  revert b c. induction a as [|x a IH]; intros [|y b] [|z c]; simpl; try done.
  unfold Ascii.compare.
  destruct (N.compare_spec (N_of_ascii x) (N_of_ascii y)),
           (N.compare_spec (N_of_ascii y) (N_of_ascii z)),
           (N.compare_spec (N_of_ascii x) (N_of_ascii z));
    try done; try lia; eauto.
Qed.

Lemma less_irrefl (a : string) : strings.less a a = false.
Proof. unfold strings.less, String.ltb. by rewrite compare_refl. Qed.

Lemma less_trans (a b c : string) :
  strings.less a b = true → strings.less b c = true → strings.less a c = true.
Proof.
  unfold strings.less, String.ltb.
  destruct (a ?= b)%string eqn:E1; try done.
  destruct (b ?= c)%string eqn:E2; try done.
  by rewrite (compare_Lt_trans a b c).
Qed.

Lemma less_total (a b : string) :
  a = b ∨ strings.less a b = true ∨ strings.less b a = true.
Proof.
  unfold strings.less, String.ltb.
  destruct (a ?= b)%string eqn:E.
  - left. by apply String.compare_eq_iff.
  - right. by left.
  - right. right. rewrite String.compare_antisym, E. done.
Qed.

Lemma less_asym (a b : string) :
  strings.less a b = true → strings.less b a = false.
Proof.
  intros Hab. destruct (strings.less b a) eqn:Hba; [|done].
  by rewrite <- (less_irrefl a), (less_trans a b a).
Qed.

Lemma cmpIdent_below (a b : identifier.ACMEIdentifier) :
  (identifier.cmpIdent a b <? 0)%Z = true ↔ identifier.identLt a b.
Proof.
  unfold identifier.cmpIdent, identifier.identLt,
    identifier.TypeDNS, identifier.TypeIP.
  destruct (decide (identifier.Type_ a = identifier.Type_ b)) as [Ht|Ht].
  - destruct (decide (identifier.Value a = identifier.Value b)) as [Hv|Hv].
    + rewrite Hv, less_irrefl. split; [done|].
      intros [[H1 H2]|[_ ?]]; [|done]. congruence.
    + destruct (strings.less _ _) eqn:Hl.
      * split; [|done]. intros _. by right.
      * split; [done|]. intros [[H1 H2]|[_ ?]]; [|done]. congruence.
  - destruct (bool_decide_reflect (identifier.Type_ a = "dns")) as [Ha|Ha];
      destruct (bool_decide_reflect (identifier.Type_ b = "ip")) as [Hb|Hb];
      simpl; split; try done; eauto; intros [[? ?]|[? _]]; done.
Qed.

Lemma identLt_asym a b :
  (identifier.cmpIdent a b <? 0)%Z = true →
  ¬ (identifier.cmpIdent b a <? 0)%Z = true.
Proof.
  rewrite !cmpIdent_below. unfold identifier.identLt, identifier.TypeDNS,
    identifier.TypeIP.
  intros [[H1 H2]|[H1 H2]] [[H3 H4]|[H3 H4]]; try congruence.
  apply less_asym in H2. congruence.
Qed.

Lemma identLt_trans a b c :
  (identifier.cmpIdent a b <? 0)%Z = true →
  (identifier.cmpIdent b c <? 0)%Z = true →
  (identifier.cmpIdent a c <? 0)%Z = true.
Proof.
  rewrite !cmpIdent_below. unfold identifier.identLt, identifier.TypeDNS,
    identifier.TypeIP.
  intros [[H1 H2]|[H1 H2]] [[H3 H4]|[H3 H4]]; try congruence.
  - left. split; congruence.
  - left. split; congruence.
  - right. split; [congruence|]. by eapply less_trans.
Qed.

Lemma identLt_total a b :
  identifier.registered a → identifier.registered b →
  a = b ∨ (identifier.cmpIdent a b <? 0)%Z = true
        ∨ (identifier.cmpIdent b a <? 0)%Z = true.
Proof.
  rewrite !cmpIdent_below. unfold identifier.identLt, identifier.registered.
  destruct a as [ta va], b as [tb vb]; simpl.
  intros [->| ->] [->| ->]; eauto 6.
  - destruct (less_total va vb) as [->|[?|?]]; eauto 6.
  - destruct (less_total va vb) as [->|[?|?]]; eauto 6.
Qed.

(* --------------------------------------------------------------------- *)
(** ** [strings.ToLower] *)
(* --------------------------------------------------------------------- *)

Lemma lowerByte_ascii (c : ascii) :
  (N_of_ascii c <? 0x80)%N = true →
  (N_of_ascii (strings.lowerByte c) <? 0x80)%N = true.
Proof.
  unfold strings.lowerByte. intros Hc.
  destruct ((65 <=? N_of_ascii c)%N && (N_of_ascii c <=? 90)%N) eqn:E; [|done].
  apply andb_true_iff in E as [H1 H2].
  apply N.leb_le in H1, H2. apply N.ltb_lt.
  rewrite N_ascii_embedding; lia.
Qed.

Lemma lowerByte_idem (c : ascii) :
  strings.lowerByte (strings.lowerByte c) = strings.lowerByte c.
Proof.
  unfold strings.lowerByte.
  destruct ((65 <=? N_of_ascii c)%N && (N_of_ascii c <=? 90)%N) eqn:E.
  - apply andb_true_iff in E as [H1 H2]. apply N.leb_le in H1, H2.
    rewrite N_ascii_embedding by lia.
    destruct (N.leb_spec (N_of_ascii c + 32) 90); [lia|].
    by rewrite andb_false_r.
  - by rewrite E.
Qed.

Lemma mapBytes_lower_ascii (s : string) :
  strings.isASCII s = true →
  strings.isASCII (strings.mapBytes strings.lowerByte s) = true.
Proof.
  induction s as [|c s IH]; simpl; [done|].
  intros [Hc Hs]%andb_true_iff. by rewrite lowerByte_ascii, IH.
Qed.

Lemma mapBytes_lower_idem (s : string) :
  strings.mapBytes strings.lowerByte (strings.mapBytes strings.lowerByte s)
  = strings.mapBytes strings.lowerByte s.
Proof. induction s as [|c s IH]; simpl; [done|]. by rewrite lowerByte_idem, IH. Qed.

(** Lower-casing twice is lower-casing once, as soon as the Unicode path
    returns strings that [ToLower] leaves alone. *)
Lemma ToLower_idem `{GoLib} (s : string) :
  (∀ t, strings.isASCII t = false →
        strings.ToLower (unicodeLower t) = unicodeLower t) →
  strings.ToLower (strings.ToLower s) = strings.ToLower s.
Proof.
  intros Hu. unfold strings.ToLower at 2 3.
  destruct (strings.isASCII s) eqn:Hs.
  - unfold strings.ToLower. by rewrite mapBytes_lower_ascii, mapBytes_lower_idem.
  - by apply Hu.
Qed.

Lemma asciiLib_fixed (t : string) :
  strings.isASCII t = false →
  @strings.ToLower asciiLib (@unicodeLower asciiLib t) = @unicodeLower asciiLib t.
Proof.
  intros _. unfold strings.ToLower. simpl.
  destruct (strings.isASCII _); by rewrite mapBytes_lower_idem.
Qed.

(* --------------------------------------------------------------------- *)
(** ** [identifier.Normalize] *)
(* --------------------------------------------------------------------- *)

Lemma ident_asym a b :
  identifier.registered a → identifier.registered b →
  (identifier.cmpIdent a b <? 0)%Z = true →
  (identifier.cmpIdent b a <? 0)%Z ≠ true.
Proof. intros _ _. apply identLt_asym. Qed.

Lemma ident_trans a b c :
  identifier.registered a → identifier.registered b → identifier.registered c →
  (identifier.cmpIdent a b <? 0)%Z = true →
  (identifier.cmpIdent b c <? 0)%Z = true →
  (identifier.cmpIdent a c <? 0)%Z = true.
Proof. intros _ _ _. apply identLt_trans. Qed.

Abbreviation sortedUpTo :=
  (StronglySorted (upTo identifier.cmpIdent identifier.registered)).
Abbreviation sortedBelow :=
  (StronglySorted (strictlyBelow identifier.cmpIdent identifier.registered)).

Section NormalizeFacts.
Context `{GoLib}.


Lemma lowerValue_registered idents :
  Forall identifier.registered idents →
  Forall identifier.registered (map identifier.lowerValue idents).
Proof.
  intros Hr. apply Forall_map. eapply Forall_impl; [exact Hr|]. by intros [].
Qed.

Lemma Normalize_sortedBelow idents :
  Forall identifier.registered idents →
  sortedBelow (identifier.Normalize idents).
Proof.
  intros Hr. unfold identifier.Normalize.
  apply (Compact_sorted _ _ ident_trans).
  apply (SortFunc_sorted _ _ ident_trans identLt_total).
  by apply lowerValue_registered.
Qed.

Lemma Normalize_elem idents x :
  x ∈ identifier.Normalize idents ↔ x ∈ map identifier.lowerValue idents.
Proof.
  unfold identifier.Normalize.
  by rewrite Compact_elem, SortFunc_Permutation.
Qed.

Lemma sortedBelow_identLt l :
  sortedBelow l → StronglySorted identifier.identLt l.
Proof.
  induction 1 as [|x l Hs IH Hx]; constructor; [done|].
  eapply Forall_impl; [exact Hx|]. intros z (_ & _ & Hz).
  by apply cmpIdent_below.
Qed.

End NormalizeFacts.

(** C10 (as amended): on identifiers of the registered types "dns" and "ip",
    [Normalize] returns exactly the lower-cased identifiers of its input,
    without a duplicate, every DNS identifier before every IP identifier
    and identifiers of one type in increasing order of their values; and,
    the Unicode lower-casing of the library being stable, normalising twice
    is normalising once. *)
Theorem Normalize_registered `{GoLib} (idents : list identifier.ACMEIdentifier) :
  Forall identifier.registered idents →
  (∀ t, strings.isASCII t = false →
        strings.ToLower (unicodeLower t) = unicodeLower t) →
  (∀ x, x ∈ identifier.Normalize idents
        ↔ x ∈ map identifier.lowerValue idents) ∧
  NoDup (identifier.Normalize idents) ∧
  StronglySorted identifier.identLt (identifier.Normalize idents) ∧
  identifier.Normalize (identifier.Normalize idents) = identifier.Normalize idents.
Proof.
  intros Hr Hu.
  pose proof (Normalize_sortedBelow idents Hr) as Hs.
  split; [apply Normalize_elem|].
  split.
  { exact (strictlyBelow_NoDup _ _ ident_asym _ Hs). }
  split; [by apply sortedBelow_identLt|].
  set (ys := identifier.Normalize idents) in *.
  assert (Hreg : Forall identifier.registered ys).
  { apply Forall_forall. intros y Hy%Normalize_elem.
    pose proof (lowerValue_registered idents Hr) as Hl.
    rewrite Forall_forall in Hl. by apply Hl. }
  assert (Hlow : map identifier.lowerValue ys = ys).
  { rewrite <- (map_id ys) at 2. apply map_ext_in.
    intros y Hy%list_elem_of_In%Normalize_elem.
    apply list_elem_of_In in Hy. apply in_map_iff in Hy as (x & <- & _).
    unfold identifier.lowerValue. simpl. f_equal. by apply ToLower_idem. }
  unfold identifier.Normalize at 1. rewrite Hlow.
  rewrite (SortFunc_id _ _ ident_asym ident_trans identLt_total ys Hreg)
    by (by apply strictlyBelow_upTo).
  by apply (Compact_id _ _ ident_asym).
Qed.

Lemma Normalize_registered_witness :
  Forall identifier.registered sampleIdents ∧
  NoDup (@identifier.Normalize asciiLib sampleIdents) ∧
  @identifier.Normalize asciiLib (@identifier.Normalize asciiLib sampleIdents)
  = @identifier.Normalize asciiLib sampleIdents.
Proof.
  assert (Hr : Forall identifier.registered sampleIdents).
  { unfold sampleIdents.
    repeat (apply Forall_cons_2; [unfold identifier.registered; simpl; auto|]).
    apply Forall_nil_2. }
  split; [exact Hr|].
  destruct (@Normalize_registered asciiLib sampleIdents Hr asciiLib_fixed)
    as (_ & Hnd & _ & Hid).
  split; [exact Hnd|exact Hid].
Defined.

(** C10 as stated fails on identifiers of other types: the comparison
    function answers 1 both ways round, the sort leaves the slice as it is,
    and the duplicate survives; likewise an IP identifier stays in front of
    a DNS identifier. *)
Lemma Normalize_unregistered_counterexample :
  let foo := {| identifier.Type_ := "foo"; identifier.Value := "a" |} in
  let bar := {| identifier.Type_ := "bar"; identifier.Value := "b" |} in
  let ip := {| identifier.Type_ := "ip"; identifier.Value := "192.0.2.1" |} in
  let dns := identifier.NewDNS "a.example" in
  @identifier.Normalize asciiLib [foo; bar; foo] = [foo; bar; foo] ∧
  ¬ NoDup (@identifier.Normalize asciiLib [foo; bar; foo]) ∧
  @identifier.Normalize asciiLib [ip; bar; dns] = [ip; bar; dns].
Proof.
  simpl. split; [reflexivity|]. split; [|reflexivity].
  change (¬ NoDup [ {| identifier.Type_ := "foo"; identifier.Value := "a" |};
                    {| identifier.Type_ := "bar"; identifier.Value := "b" |};
                    {| identifier.Type_ := "foo"; identifier.Value := "a" |} ]).
  intros Hnd. apply NoDup_cons in Hnd as [Hn _]. apply Hn. right. left.
Qed.

(* --------------------------------------------------------------------- *)
(** ** [makeIssuerMaps] *)
(* --------------------------------------------------------------------- *)

Lemma entryOf_default {A} (l : list A) : default [] (entryOf l) = l.
Proof. by destruct l. Qed.

Lemma entryOf_snoc {A} (l : list A) (x : A) : entryOf (l ++ [x]) = Some (l ++ [x]).
Proof. by destruct l. Qed.

Lemma activeIssuers_snoc alg seen x :
  activeIssuers alg (seen ++ [x]) =
  activeIssuers alg seen ++
    (if decide (issuance.IsActive x = true ∧ issuance.KeyType x = alg) then [x] else []).
Proof.
  unfold activeIssuers. by rewrite filter_app.
Qed.

Lemma mapsOf_step seen A B x :
  mapsOf seen A B →
  B !! issuance.NameID_ x = None →
  mapsOf (seen ++ [x])
    (if issuance.IsActive x then
       <[issuance.KeyType x := default [] (A !! issuance.KeyType x) ++ [x]]> A
     else A)
    (<[issuance.NameID_ x := x]> B).
Proof.
  intros [HB HA] Hfresh. split.
  - intros id i. rewrite elem_of_app, list_elem_of_singleton.
    destruct (decide (issuance.NameID_ x = id)) as [<-|Hne].
    + rewrite lookup_insert_eq. split.
      * intros [= <-]. eauto.
      * intros [[Hi| ->] Hid]; [|done].
        assert (B !! issuance.NameID_ x = Some i) as Hc by (apply HB; eauto).
        congruence.
    + rewrite lookup_insert_ne by done. rewrite HB. split.
      * intros [? ?]. eauto.
      * intros [[Hi| ->] Hid]; [done|congruence].
  - intros alg. rewrite activeIssuers_snoc.
    destruct (issuance.IsActive x) eqn:Hact.
    + destruct (decide (issuance.KeyType x = alg)) as [<-|Hne].
      * rewrite lookup_insert_eq, HA, entryOf_default.
        rewrite decide_True by done. by rewrite entryOf_snoc.
      * rewrite lookup_insert_ne by done. rewrite HA.
        rewrite decide_False by (intros [_ ?]; done). by rewrite app_nil_r.
    + rewrite HA. rewrite decide_False by (intros [? _]; done).
      by rewrite app_nil_r.
Qed.

Lemma makeIssuerMaps_loop_spec rest :
  ∀ seen A B,
    mapsOf seen A B →
    NoDup (map issuance.NameID_ seen) →
    match makeIssuerMaps_loop rest A B with
    | Ok (A', B') =>
        NoDup (map issuance.NameID_ (seen ++ rest)) ∧ mapsOf (seen ++ rest) A' B'
    | Err _ => ¬ NoDup (map issuance.NameID_ (seen ++ rest))
    end.
Proof.
  induction rest as [|x rest IH]; intros seen A B Hm Hnd; simpl.
  - by rewrite app_nil_r.
  - destruct (B !! issuance.NameID_ x) as [i|] eqn:HBx.
    + apply (proj1 Hm) in HBx as [Hi Hid].
      rewrite map_app. simpl. intros Hnd'.
      apply NoDup_app in Hnd' as (_ & Hdisj & _).
      apply (Hdisj (issuance.NameID_ x)).
      * rewrite <- Hid. by apply list_elem_of_fmap_2.
      * by left.
    + specialize (IH (seen ++ [x]) _ _ (mapsOf_step seen A B x Hm HBx)).
      rewrite <- app_assoc in IH. simpl in IH. apply IH.
      rewrite map_app. simpl. apply NoDup_app. split; [done|]. split.
      * intros id Hin [->|[]%elem_of_nil]%elem_of_cons.
        apply list_elem_of_fmap in Hin as (i & Hid & Hi).
        assert (B !! issuance.NameID_ x = Some i) as Hc by (apply Hm; eauto).
        congruence.
      * apply NoDup_singleton.
Qed.

Lemma mapsOf_empty : mapsOf [] ∅ ∅.
Proof.
  split.
  - intros id i. rewrite lookup_empty. split; [done|]. by intros [?%elem_of_nil _].
  - intros alg. by rewrite lookup_empty.
Qed.

Lemma noIssuers_entryOf (l : list issuance.Issuer) :
  noIssuers (entryOf l) = true ↔ l = [].
Proof. by destruct l. Qed.

(** C8: [makeIssuerMaps] fails exactly when two issuers share a NameID or
    there is no active ECDSA issuer or no active RSA issuer; when it
    succeeds, [byNameID] maps the NameID of every configured issuer, active
    or not, to that issuer and holds nothing else, and [byAlg] maps each
    key algorithm to the active issuers of that key type, in order, with no
    entry for an algorithm without one. *)
Theorem makeIssuerMaps_spec (issuers : list issuance.Issuer) :
  (is_Ok (makeIssuerMaps issuers) = false ↔
     ¬ NoDup (map issuance.NameID_ issuers)
     ∨ activeIssuers x509.ECDSA issuers = []
     ∨ activeIssuers x509.RSA issuers = []) ∧
  (∀ m, makeIssuerMaps issuers = Ok m →
     (∀ i, i ∈ issuers → byNameID m !! issuance.NameID_ i = Some i) ∧
     (∀ id i, byNameID m !! id = Some i → i ∈ issuers ∧ issuance.NameID_ i = id) ∧
     (∀ alg, byAlg m !! alg = entryOf (activeIssuers alg issuers))).
Proof.
  unfold makeIssuerMaps.
  pose proof (makeIssuerMaps_loop_spec issuers [] ∅ ∅ mapsOf_empty) as Hl.
  simpl in Hl. specialize (Hl (NoDup_nil_2)).
  destruct (makeIssuerMaps_loop issuers ∅ ∅) as [[A B]|e].
  - destruct Hl as [Hnd [HB HA]].
    rewrite !HA.
    destruct (noIssuers (entryOf (activeIssuers x509.ECDSA issuers))) eqn:E1.
    { apply noIssuers_entryOf in E1. split; [|done]. simpl. split; eauto. }
    destruct (noIssuers (entryOf (activeIssuers x509.RSA issuers))) eqn:E2.
    { apply noIssuers_entryOf in E2. split; [|done]. simpl. split; eauto. }
    split.
    + simpl. split; [done|]. intros [?|[E|E]]; [done| |].
      * apply noIssuers_entryOf in E. congruence.
      * apply noIssuers_entryOf in E. congruence.
    + intros m [= <-]. simpl. split; [|split].
      * intros i Hi. by apply HB.
      * intros id i Hi. by apply HB.
      * done.
  - split; [|done]. simpl. split; eauto.
Qed.

(* --------------------------------------------------------------------- *)
(** ** Running the CA against arbitrary collaborators *)
(* --------------------------------------------------------------------- *)

(** Symbolic execution of a run: case analysis on the answer of the next
    call, or on the value the program branches on. *)
Ltac scrutinee x :=
  lazymatch x with
  | match ?y with _ => _ end => scrutinee y
  | _ => let E := fresh "E" in destruct x eqn:E
  end.

Ltac head_match p :=
  lazymatch p with
  | bind ?m _ => head_match m
  | mbind _ ?m => head_match m
  | match ?x with _ => _ end => scrutinee x
  end.

Ltac step h :=
  match goal with
  | |- context [h ?R ?c ?s] =>
      let r := fresh "r" in
      let s' := fresh "s" in
      let E := fresh "E" in
      destruct (h R c s) as [r s'] eqn:E
  | |- context [run h ?p ?s] => head_match p
  end.

Ltac reduce :=
  cbn -[String.append tbsCertIsDeterministic hexEncode identifier.ToValues
        FromCSR generateSKID ipStringsOf big.Bytes big.SetBytes unmarshalSCTs
        algoName].

Ltac steps h := repeat (reduce; step h); reduce.

Ltac unfold_ca :=
  unfold result_of, trace_of, IssueCertificate, issuePrecertificate,
    issueCertificateForPrecertificate, issuePrecertificateInner,
    generateSerialNumber, noteSignError.

Lemma failureIsLast_spec (l : list (Op * bool)) :
  failureIsLast l = true →
  ∀ before o after, l = before ++ (o, false) :: after → after = [].
Proof.
  induction l as [|[o' ok] l IH]; intros Hl before o after Heq.
  - by destruct before.
  - destruct before as [|b before]; simpl in Heq.
    + simplify_eq. simpl in Hl. by destruct after.
    + simplify_eq. simpl in Hl.
      destruct (before ++ (o, false) :: after) eqn:E; [by destruct before|].
      apply andb_true_iff in Hl as [_ Hl]. by eapply IH.
Qed.

Section Runs.
Context `{GoLib} `{CALib}.
Context {S : Type} (h : handler S).

(** C7 (as amended): when the requested profile is not configured,
    [IssueCertificate] fails without a single call to a collaborator,
    hence without a write to the Storage Authority; on a complete
    request to a CA with an SCT service, the error is a plain error (of
    no [berrors] kind) that reads "the CA is incapable of using a
    profile named X". *)
Theorem IssueCertificate_unknown_profile
        (ca : certificateAuthorityImpl) (issueReq : capb.IssueCertificateRequest)
        (s : S) :
  certProfiles ca !! capb.CertProfileName issueReq = None →
  trace_of h (IssueCertificate ca issueReq) s = [] ∧
  is_Ok (result_of h (IssueCertificate ca issueReq) s) = false ∧
  (capb.Csr issueReq ≠ [] → capb.RegistrationID issueReq ≠ 0%Z →
   capb.OrderID issueReq ≠ 0%Z → sctClient ca ≠ None →
   result_of h (IssueCertificate ca issueReq) s =
   Err (errorString ("the CA is incapable of using a profile named "
                     +:+ capb.CertProfileName issueReq))).
Proof.
  intros Hp. unfold_ca. rewrite Hp.
  unfold core.IsNilOrZero_bytes, core.IsNilOrZero_int64.
  destruct (capb.Csr issueReq) as [|b l]; [by repeat split|].
  repeat case_bool_decide; try done; simpl;
    destruct (sctClient ca); by repeat split.
Qed.

(** C3: in [issueCertificateForPrecertificate], when [GetCertificate]
    answers without an error, or with an error that is not NotFound, the
    function fails without a call to [Prepare], [Issue] or
    [AddCertificate]; in the first case with the InternalServerError
    "issuance of duplicate final certificate requested: <serial>". *)
Theorem duplicate_final_certificate_refused
        (ca : certificateAuthorityImpl) (certProfile : certProfileWithID)
        (precertDER : list byte) (sctBytes : list (list byte))
        (regID orderID : Z) (s : S) (answer : option error) :
  let p := issueCertificateForPrecertificate ca certProfile precertDER sctBytes
             regID orderID in
  getCertificateAnswers (trace_of h p s) = [answer] →
  match answer with
  | None => True
  | Some err => errors_Is_type err berrors.NotFound = false
  end →
  count OpPrepare (trace_of h p s) = 0%nat ∧
  count OpIssue (trace_of h p s) = 0%nat ∧
  count OpAddCertificate (trace_of h p s) = 0%nat ∧
  ∃ precert,
    ParseCertificate precertDER = Ok precert ∧
    result_of h p s =
    Err (match answer with
         | None =>
             InternalServerError
               ("issuance of duplicate final certificate requested: "
                +:+ SerialToString (x509.SerialNumber precert))
         | Some err =>
             errorString
               ("error checking for duplicate issuance of "
                +:+ SerialToString (x509.SerialNumber precert)
                +:+ ": " +:+ Error err)
         end).
Proof.
  intros p. subst p. unfold_ca.
  steps h; intros Hans Hnf; try discriminate Hans; injection Hans as <-;
    try (rewrite Hnf in *; discriminate); repeat split; eauto.
Qed.

(** C5: when [issuer.Prepare] fails on the precertificate path, the
    issuance returns the InternalServerError "failed to prepare
    precertificate signing: <cause>", makes no [Issue] call, writes no
    precertificate (and does not mark the serial ready), and increments
    [lint_errors] once if the failure is a linting error and not at all
    otherwise. *)
Theorem Prepare_failure_halts_precertificate
        (ca : certificateAuthorityImpl) (certProfile : certProfileWithID)
        (issueReq : capb.IssueCertificateRequest) (s : S) (err : error) :
  let p := issuePrecertificate ca certProfile issueReq in
  prepareErrors (trace_of h p s) = [err] →
  result_of h p s =
    Err (InternalServerError
           ("failed to prepare precertificate signing: " +:+ Error err)) ∧
  count OpIssue (trace_of h p s) = 0%nat ∧
  count OpAddPrecertificate (trace_of h p s) = 0%nat ∧
  count OpSetCertificateStatusReady (trace_of h p s) = 0%nat ∧
  lintErrors (trace_of h p s) = (if errors_Is_ErrLinting err then 1 else 0)%nat.
Proof.
  intros p. subst p. unfold_ca.
  steps h; intros Hp; try discriminate Hp; injection Hp as <-;
    repeat split;
    match goal with
    | E : errors_Is_ErrLinting _ = _ |- _ => by rewrite E
    end.
Qed.

(** C6 (as amended): when the certificate of the issuer picked for a
    precertificate expires before the certificate to be issued would,
    [issuePrecertificateInner] fails with the InternalServerError "cannot
    issue a certificate that expires after the issuer certificate",
    without a call to [Prepare], [AddPrecertificate] or [Issue]. *)
Theorem issuer_expiry_refused
        (ca : certificateAuthorityImpl) (issueReq : capb.IssueCertificateRequest)
        (certProfile : certProfileWithID) (serialBigInt : N)
        (notBefore notAfter : Time) (s : S)
        (csr : x509.CertificateRequest) (issuerPool : list issuance.Issuer)
        (idx : nat) (issuer : issuance.Issuer) :
  let p := issuePrecertificateInner ca issueReq certProfile serialBigInt
             notBefore notAfter in
  ParseCertificateRequest (capb.Csr issueReq) = Ok csr →
  byAlg (issuers ca) !! x509.PublicKeyAlgorithm_ csr = Some issuerPool →
  picks (trace_of h p s) = [idx] →
  issuerPool !! idx = Some issuer →
  (issuance.Cert_NotAfter issuer < notAfter)%Z →
  result_of h p s =
    Err (InternalServerError
           "cannot issue a certificate that expires after the issuer certificate") ∧
  count OpPrepare (trace_of h p s) = 0%nat ∧
  count OpAddPrecertificate (trace_of h p s) = 0%nat ∧
  count OpIssue (trace_of h p s) = 0%nat.
Proof.
  intros p Hcsr Hpool. subst p. unfold_ca. rewrite Hcsr. reduce.
  step h. destruct r as [err|]; reduce.
  { steps h. intros Hp. discriminate Hp. }
  rewrite Hpool.
  steps h; intros Hp Hi Hlt; try discriminate Hp; injection Hp as ->;
    simplify_eq; try by repeat split.
  all: match goal with
       | E : (_ <? _)%Z = false |- _ => apply Z.ltb_ge in E; lia
       end.
Qed.

(** C2: in every run of [IssueCertificate], no call of the chain (the
    writes to the Storage Authority and the signing) follows a call of
    the chain that failed; and in a run that succeeds the chain is
    [AddSerial], [AddPrecertificate], [Issue], [SetCertificateStatusReady],
    then the [Issue] of the final certificate and [AddCertificate], so
    that each write happens once and in this order, and the DER written
    by [AddPrecertificate] is the lint certificate of the first
    [Prepare]. *)
Theorem IssueCertificate_ordering
        (ca : certificateAuthorityImpl) (issueReq : capb.IssueCertificateRequest)
        (s : S) :
  let t := trace_of h (IssueCertificate ca issueReq) s in
  (∀ before o after, chain t = before ++ (o, false) :: after → after = []) ∧
  (is_Ok (result_of h (IssueCertificate ca issueReq) s) = true →
   chain t = [(OpAddSerial, true); (OpAddPrecertificate, true); (OpIssue, true);
              (OpSetCertificateStatusReady, true); (OpIssue, true);
              (OpAddCertificate, true)] ∧
   filter (λ p, isWrite (fst p) = true) (ops t)
   = [(OpAddSerial, true); (OpAddPrecertificate, true);
      (OpSetCertificateStatusReady, true); (OpAddCertificate, true)] ∧
   ∃ lint lint', lintDERs t = [lint; lint'] ∧ precertificateDERs t = [lint]).
Proof.
  intros t. subst t. split.
  - apply failureIsLast_spec. unfold_ca. steps h; reflexivity.
  - unfold_ca. steps h; intros Hok; try discriminate Hok.
    repeat split. eauto.
Qed.
End Runs.

(* --------------------------------------------------------------------- *)
(** ** The names of a certificate request *)
(* --------------------------------------------------------------------- *)

Section Names.
Context `{GoLib} `{CALib}.

Lemma fold_left_snoc {A B} (f : A → B) (l : list A) (acc : list B) :
  fold_left (λ acc x, acc ++ [f x]) l acc = acc ++ map f l.
Proof.
  revert acc. induction l as [|x l IH]; intros acc; simpl.
  - by rewrite app_nil_r.
  - by rewrite IH, <- app_assoc.
Qed.

(** The identifiers a CSR (or certificate) yields, before normalising. *)
Lemma fromX509_elem commonName dnsNames ipAddresses x :
  x ∈ identifier.fromX509 commonName dnsNames ipAddresses ↔
  x ∈ map identifier.lowerValue
        ((map identifier.NewDNS dnsNames
          ++ (if decide (commonName ≠ "") then [identifier.NewDNS commonName] else []))
         ++ map (λ ip, {| identifier.Type_ := identifier.TypeIP;
                          identifier.Value := IP_String ip |}) ipAddresses).
Proof.
  unfold identifier.fromX509. rewrite Normalize_elem.
  rewrite (fold_left_snoc (λ ip, {| identifier.Type_ := identifier.TypeIP;
                                    identifier.Value := IP_String ip |})).
  rewrite (fold_left_snoc identifier.NewDNS). simpl.
  destruct (decide (commonName ≠ "")); [done|]. by rewrite app_nil_r.
Qed.

Lemma ToValues_loop_elem idents :
  ∀ dnsNames0 ipAddresses0 dnsNames ipAddresses,
    identifier.ToValues_loop idents dnsNames0 ipAddresses0
    = Ok (dnsNames, ipAddresses) →
    (∀ n, n ∈ dnsNames ↔
          n ∈ dnsNames0 ∨
          ∃ x, x ∈ idents ∧ identifier.Type_ x = identifier.TypeDNS
               ∧ identifier.Value x = n) ∧
    (∀ ip, ip ∈ ipAddresses ↔
           ip ∈ ipAddresses0 ∨
           ∃ x, x ∈ idents ∧ identifier.Type_ x = identifier.TypeIP
                ∧ ParseIP (identifier.Value x) = Some ip).
Proof.
  induction idents as [|x idents IH]; intros d0 i0 d i; simpl.
  - intros [= <- <-]. split; intros y; split; eauto.
    + intros [?|(? & []%elem_of_nil & _)]; done.
    + intros [?|(? & []%elem_of_nil & _)]; done.
  - destruct (decide (identifier.Type_ x = identifier.TypeDNS)) as [Hd|Hd].
    + intros [Hn Hi]%IH. split.
      * intros n. rewrite Hn, elem_of_app, list_elem_of_singleton. split.
        -- intros [[?| ->]|(y & Hy & ? & ?)]; eauto.
           ++ right. exists x. split; [by left|done].
           ++ right. exists y. split; [by right|done].
        -- intros [?|(y & [->|Hy]%elem_of_cons & ? & ?)]; eauto 10.
      * intros ip. rewrite Hi. split.
        -- intros [?|(y & Hy & ? & ?)]; eauto.
           right. exists y. split; [by right|done].
        -- intros [?|(y & [->|Hy]%elem_of_cons & Hty & ?)]; eauto 10.
           rewrite Hd in Hty. discriminate.
    + destruct (decide (identifier.Type_ x = identifier.TypeIP)) as [Hi|Hi];
        [|discriminate].
      destruct (ParseIP (identifier.Value x)) as [ip0|] eqn:Hp; [|discriminate].
      intros [Hn Hip]%IH. split.
      * intros n. rewrite Hn. split.
        -- intros [?|(y & Hy & ? & ?)]; eauto.
           right. exists y. split; [by right|done].
        -- intros [?|(y & [->|Hy]%elem_of_cons & Hty & ?)]; eauto 10. done.
      * intros ip. rewrite Hip, elem_of_app, list_elem_of_singleton. split.
        -- intros [[?| ->]|(y & Hy & ? & ?)]; eauto.
           ++ right. exists x. split; [by left|done].
           ++ right. exists y. split; [by right|done].
        -- intros [?|(y & [->|Hy]%elem_of_cons & ? & Hq)]; eauto 10.
           left. right. congruence.
Qed.

(** The DNS names and IP addresses [ToValues] extracts from [FromCSR]:
    the lower-cased DNS names of the SANs together with the lower-cased
    common name when there is one, and the parsed IP addresses. *)
Lemma FromCSR_ToValues csr dnsNames ipAddresses :
  identifier.ToValues (FromCSR csr) = Ok (dnsNames, ipAddresses) →
  (∀ n, n ∈ dnsNames ↔
        (∃ d, d ∈ x509.DNSNames csr ∧ n = strings.ToLower d) ∨
        (x509.Subject_CommonName csr ≠ ""
         ∧ n = strings.ToLower (x509.Subject_CommonName csr))) ∧
  (∀ ip, ip ∈ ipAddresses ↔
         ∃ ip0, ip0 ∈ x509.IPAddresses csr
                ∧ ParseIP (strings.ToLower (IP_String ip0)) = Some ip).
Proof.
  unfold identifier.ToValues, FromCSR. intros [Hn Hi]%ToValues_loop_elem.
  split.
  - intros n. rewrite Hn. split.
    + intros [[]%elem_of_nil|(x & Hx%fromX509_elem & Hty & <-)].
      apply list_elem_of_In, in_map_iff in Hx as (y & <- & Hy).
      apply in_app_or in Hy as [Hy|Hy].
      * apply in_app_or in Hy as [Hy|Hy].
        -- apply in_map_iff in Hy as (d & <- & Hd). left. exists d.
           split; [by apply list_elem_of_In|done].
        -- destruct (decide (x509.Subject_CommonName csr ≠ "")) as [Hcn|Hcn];
             [|done].
           destruct Hy as [<-|[]]. by right.
      * apply in_map_iff in Hy as (ip & <- & _). discriminate.
    + intros Hcase. right.
      assert (∃ y, In y (map identifier.NewDNS (x509.DNSNames csr)
                         ++ (if decide (x509.Subject_CommonName csr ≠ "")
                             then [identifier.NewDNS (x509.Subject_CommonName csr)]
                             else []))
                   ∧ identifier.Type_ y = identifier.TypeDNS
                   ∧ strings.ToLower (identifier.Value y) = n)
        as (y & Hy & Hty & <-).
      { destruct Hcase as [(d & Hd & ->)|[Hcn ->]].
        - exists (identifier.NewDNS d). split; [|done].
          apply in_or_app. left. apply in_map. by apply list_elem_of_In.
        - exists (identifier.NewDNS (x509.Subject_CommonName csr)).
          split; [|done]. apply in_or_app. right.
          rewrite decide_True by done. by left. }
      exists (identifier.lowerValue y). split; [|done].
      apply fromX509_elem, list_elem_of_In, in_map, in_or_app. by left.
  - intros ip. rewrite Hi. split.
    + intros [[]%elem_of_nil|(x & Hx%fromX509_elem & Hty & Hp)].
      apply list_elem_of_In, in_map_iff in Hx as (y & <- & Hy).
      apply in_app_or in Hy as [Hy|Hy].
      * assert (identifier.Type_ y = identifier.TypeDNS) as Hdns.
        { apply in_app_or in Hy as [Hy|Hy].
          - by apply in_map_iff in Hy as (d & <- & _).
          - destruct (decide (x509.Subject_CommonName csr ≠ "")); [|done].
            by destruct Hy as [<-|[]]. }
        simpl in Hty. rewrite Hdns in Hty. discriminate.
      * apply in_map_iff in Hy as (ip0 & <- & Hip0). exists ip0.
        split; [by apply list_elem_of_In|done].
    + intros (ip0 & Hip0 & Hp). right.
      exists (identifier.lowerValue
                {| identifier.Type_ := identifier.TypeIP;
                   identifier.Value := IP_String ip0 |}).
      split; [|done].
      apply fromX509_elem, list_elem_of_In, in_map, in_or_app. right.
      apply in_map_iff. exists ip0. split; [done|]. by apply list_elem_of_In.
Qed.

(** C9 (as amended): the DNS names [issuePrecertificateInner] hands to
    [Prepare] are the lower-cased DNS names of the CSR's subject
    alternative names together with the lower-cased subject common name
    when the CSR has one, even if no SAN carries it; the IP addresses
    are those of the SANs. *)
Theorem precertificate_names {S} (h : handler S)
        (ca : certificateAuthorityImpl) (issueReq : capb.IssueCertificateRequest)
        (certProfile : certProfileWithID) (serialBigInt : N)
        (notBefore notAfter : Time) (s : S) (req : issuance.IssuanceRequest) :
  req ∈ prepareRequests
          (trace_of h (issuePrecertificateInner ca issueReq certProfile
                         serialBigInt notBefore notAfter) s) →
  ∃ csr,
    ParseCertificateRequest (capb.Csr issueReq) = Ok csr ∧
    (∀ n, n ∈ issuance.DNSNames req ↔
          (∃ d, d ∈ x509.DNSNames csr ∧ n = strings.ToLower d) ∨
          (x509.Subject_CommonName csr ≠ ""
           ∧ n = strings.ToLower (x509.Subject_CommonName csr))) ∧
    (∀ ip, ip ∈ issuance.IPAddresses req ↔
           ∃ ip0, ip0 ∈ x509.IPAddresses csr
                  ∧ ParseIP (strings.ToLower (IP_String ip0)) = Some ip).
Proof.
  unfold_ca.
  steps h; intros Hin; try (by apply elem_of_nil in Hin);
    apply list_elem_of_singleton in Hin as ->;
    (eexists; split; [reflexivity|]); simpl;
    by apply FromCSR_ToValues.
Qed.
End Names.

(* --------------------------------------------------------------------- *)
(** ** The serial number *)
(* --------------------------------------------------------------------- *)

Lemma NewCertificateAuthorityImpl_prefix `{CALib}
      sctService boulderIssuers certificateProfiles serialPrefix maxNames ca :
  NewCertificateAuthorityImpl sctService boulderIssuers certificateProfiles
    serialPrefix maxNames = Ok ca →
  prefix ca = serialPrefix ∧ (1 ≤ Byte.to_N serialPrefix ≤ 0x7f)%N.
Proof.
  unfold NewCertificateAuthorityImpl.
  destruct (N.ltb_spec (Byte.to_N serialPrefix) 1); [done|].
  destruct (N.ltb_spec 127 (Byte.to_N serialPrefix)); [done|]. simpl.
  case_bool_decide; [done|].
  destruct (makeCertificateProfilesMap _); [|done].
  destruct (makeIssuerMaps _); [|done].
  intros [= <-]. simpl. split; [done|lia].
Qed.

Lemma Bytes_zero : big.Bytes 0 = [].
Proof. reflexivity. Qed.

(** C4 (as amended): for a CA the constructor accepted, a serial that
    [generateSerialNumber] produces from a [rand.Read] that filled its
    buffer is, in big-endian bytes, exactly 18 bytes long: the configured
    prefix, whose high bit is clear, followed by the 17 random bytes (136
    bits) drawn; the integer is positive. *)
Theorem generateSerialNumber_shape `{GoLib} `{CALib} {S} (h : handler S)
        sctService boulderIssuers certificateProfiles serialPrefix maxNames
        (ca : certificateAuthorityImpl) (s : S) (n : nat) (random : list byte) :
  NewCertificateAuthorityImpl sctService boulderIssuers certificateProfiles
    serialPrefix maxNames = Ok ca →
  randomReads (trace_of h (generateSerialNumber ca) s) = [(n, Ok random)] →
  length random = n →
  ∃ serial,
    result_of h (generateSerialNumber ca) s = Ok serial ∧
    n = 17%nat ∧
    big.Bytes serial = serialPrefix :: random ∧
    length (big.Bytes serial) = 18%nat ∧
    N.testbit (Byte.to_N serialPrefix) 7 = false ∧
    (0 < serial)%N.
Proof.
  intros [Hp Hrange]%NewCertificateAuthorityImpl_prefix. unfold_ca. rewrite Hp.
  clear Hp.
  steps h; intros Hr Hlen; injection Hr as <- Hr; try discriminate Hr.
  subst.
  assert (HB : big.Bytes (big.SetBytes (serialPrefix :: random)) = serialPrefix :: random).
  { apply Bytes_SetBytes. simpl. intros [= ->]. simpl in Hrange. lia. }
  eexists. split; [reflexivity|]. split; [done|]. split; [exact HB|].
  split; [by rewrite HB; simpl; rewrite Hlen|]. split.
  - apply N.bits_above_log2. apply N.log2_lt_pow2; lia.
  - destruct (big.SetBytes (serialPrefix :: random)) eqn:Hz; [|lia].
    rewrite Bytes_zero in HB. discriminate.
Qed.

(* --------------------------------------------------------------------- *)
(** ** The sample world: instances and counterexamples *)
(* --------------------------------------------------------------------- *)

Lemma generateSerialNumber_shape_witness :
  ∃ serial,
    result_of (sampleWorld healthy) (@generateSerialNumber sampleCA) 1000%Z
    = Ok serial ∧
    big.Bytes serial = x7f :: replicate 17 xab.
Proof.
  destruct (@generateSerialNumber_shape asciiLib sampleCALib Z (sampleWorld healthy)
              (Some sctProvider) sampleIssuers sampleProfiles x7f 100%Z
              (sampleCAWith [sampleRSA]) 1000%Z 17%nat (replicate 17 xab))
    as (serial & Hres & _ & HB & _).
  - vm_compute. reflexivity.
  - vm_compute. reflexivity.
  - vm_compute. reflexivity.
  - exists serial. split; [exact Hres|exact HB].
Defined.

(** C4 as stated fails: the buffer has [136/8 + 1 = 18] bytes, 17 of which
    are drawn at random, so the serial is 18 bytes long, not 17. *)
Lemma generateSerialNumber_counterexample :
  ∃ serial,
    result_of (sampleWorld healthy) (@generateSerialNumber sampleCA) 1000%Z
    = Ok serial ∧
    randomReads (trace_of (sampleWorld healthy) (@generateSerialNumber sampleCA) 1000%Z)
    = [(17%nat, Ok (replicate 17 xab))] ∧
    length (big.Bytes serial) = 18%nat ∧
    length (big.Bytes serial) ≠ 17%nat.
Proof.
  eexists. split; [vm_compute; reflexivity|].
  split; [vm_compute; reflexivity|].
  split; [vm_compute; reflexivity|]. vm_compute. discriminate.
Qed.

Lemma IssueCertificate_ordering_witness :
  is_Ok (result_of (sampleWorld healthy)
           (sampleIssueCertificate sampleCA sampleRequest) 1000%Z) = true ∧
  chain (trace_of (sampleWorld healthy)
           (sampleIssueCertificate sampleCA sampleRequest) 1000%Z)
  = [(OpAddSerial, true); (OpAddPrecertificate, true); (OpIssue, true);
     (OpSetCertificateStatusReady, true); (OpIssue, true);
     (OpAddCertificate, true)].
Proof.
  assert (Hok : is_Ok (result_of (sampleWorld healthy)
                         (sampleIssueCertificate sampleCA sampleRequest) 1000%Z) = true)
    by (vm_compute; reflexivity).
  split; [exact Hok|].
  exact (proj1 (proj2 (@IssueCertificate_ordering asciiLib sampleCALib Z
                         (sampleWorld healthy) sampleCA sampleRequest 1000%Z) Hok)).
Defined.

Lemma duplicate_final_certificate_refused_witness :
  getCertificateAnswers
    (trace_of (sampleWorld (answering OpGetCertificate None))
       (sampleIssueCertificateForPrecertificate sampleCA sampleProfile
          (sampleDER xbb) [] 1 2) 1000%Z) = [None] ∧
  count OpIssue
    (trace_of (sampleWorld (answering OpGetCertificate None))
       (sampleIssueCertificateForPrecertificate sampleCA sampleProfile
          (sampleDER xbb) [] 1 2) 1000%Z) = 0%nat.
Proof.
  assert (Hans : getCertificateAnswers
                   (trace_of (sampleWorld (answering OpGetCertificate None))
                      (sampleIssueCertificateForPrecertificate sampleCA sampleProfile
                         (sampleDER xbb) [] 1 2) 1000%Z) = [None])
    by (vm_compute; reflexivity).
  split; [exact Hans|].
  exact (proj1 (proj2 (@duplicate_final_certificate_refused asciiLib sampleCALib Z
                         (sampleWorld (answering OpGetCertificate None))
                         sampleCA sampleProfile (sampleDER xbb) [] 1%Z 2%Z 1000%Z
                         None Hans I))).
Defined.

Lemma Prepare_failure_halts_precertificate_witness :
  prepareErrors
    (trace_of (sampleWorld (answering OpPrepare (Some ErrLinting)))
       (sampleIssuePrecertificate sampleCA sampleProfile sampleRequest) 1000%Z)
  = [ErrLinting] ∧
  lintErrors
    (trace_of (sampleWorld (answering OpPrepare (Some ErrLinting)))
       (sampleIssuePrecertificate sampleCA sampleProfile sampleRequest) 1000%Z)
  = 1%nat.
Proof.
  assert (Herr : prepareErrors
                   (trace_of (sampleWorld (answering OpPrepare (Some ErrLinting)))
                      (sampleIssuePrecertificate sampleCA sampleProfile sampleRequest)
                      1000%Z) = [ErrLinting])
    by (vm_compute; reflexivity).
  split; [exact Herr|].
  exact (proj2 (proj2 (proj2 (proj2
           (@Prepare_failure_halts_precertificate asciiLib sampleCALib Z
              (sampleWorld (answering OpPrepare (Some ErrLinting)))
              sampleCA sampleProfile sampleRequest 1000%Z ErrLinting Herr))))).
Defined.

Lemma issuer_expiry_refused_witness :
  result_of (sampleWorld healthy)
    (sampleIssuePrecertificateInner (sampleCAWith [sampleShortRSA]) sampleRequest
       sampleProfile 0x7f01 0%Z 10000%Z) 1000%Z
  = Err (InternalServerError
           "cannot issue a certificate that expires after the issuer certificate").
Proof.
  refine (proj1 (@issuer_expiry_refused asciiLib sampleCALib Z (sampleWorld healthy)
                   (sampleCAWith [sampleShortRSA]) sampleRequest sampleProfile
                   0x7f01%N 0%Z 10000%Z 1000%Z sampleCSR [sampleShortRSA] 0%nat
                   sampleShortRSA _ _ _ _ _)).
  - vm_compute. reflexivity.
  - vm_compute. reflexivity.
  - vm_compute. reflexivity.
  - reflexivity.
  - vm_compute. reflexivity.
Defined.

(** C6 as stated fails on the text of the error: the code never answers
    "cannot issue past issuer expiry". *)
Lemma issuer_expiry_counterexample :
  (issuance.Cert_NotAfter sampleShortRSA < 10000)%Z ∧
  result_of (sampleWorld healthy)
    (sampleIssuePrecertificateInner (sampleCAWith [sampleShortRSA]) sampleRequest
       sampleProfile 0x7f01 0%Z 10000%Z) 1000%Z
  ≠ Err (InternalServerError "cannot issue past issuer expiry").
Proof. split; [vm_compute; reflexivity|]. vm_compute. discriminate. Qed.

Lemma IssueCertificate_unknown_profile_witness :
  certProfiles sampleCA !! "modern" = None ∧
  trace_of (sampleWorld healthy)
    (sampleIssueCertificate sampleCA unknownProfileRequest) 1000%Z = [].
Proof.
  assert (Hp : certProfiles sampleCA !! capb.CertProfileName unknownProfileRequest = None)
    by (vm_compute; reflexivity).
  split; [exact Hp|].
  exact (proj1 (@IssueCertificate_unknown_profile asciiLib sampleCALib Z
                  (sampleWorld healthy) sampleCA unknownProfileRequest 1000%Z Hp)).
Defined.

(** C7 as stated fails twice over: the error for an unknown profile is a
    plain error, of neither the NotFound nor the Malformed kind; and an
    incomplete request for an unknown profile is turned down for being
    incomplete. *)
Lemma IssueCertificate_unknown_profile_counterexample :
  certProfiles sampleCA !! "modern" = None ∧
  (∃ e, result_of (sampleWorld healthy)
          (sampleIssueCertificate sampleCA unknownProfileRequest) 1000%Z = Err e
        ∧ errors_Is_type e berrors.NotFound = false
        ∧ errors_Is_type e berrors.Malformed = false) ∧
  result_of (sampleWorld healthy)
    (sampleIssueCertificate sampleCA incompleteRequest) 1000%Z
  = Err (InternalServerError "Incomplete issue certificate request").
Proof.
  split; [vm_compute; reflexivity|]. split.
  - eexists. split; [vm_compute; reflexivity|]. by split.
  - vm_compute. reflexivity.
Qed.

Lemma precertificate_names_witness :
  samplePrecertRequest
  ∈ prepareRequests
      (trace_of (sampleWorld healthy)
         (sampleIssuePrecertificateInner sampleCA sampleRequest sampleProfile
            0x7f01 0%Z 10000%Z) 1000%Z) ∧
  ∃ csr,
    @ParseCertificateRequest sampleCALib (capb.Csr sampleRequest) = Ok csr ∧
    ∀ n, n ∈ issuance.DNSNames samplePrecertRequest ↔
         (∃ d, d ∈ x509.DNSNames csr ∧ n = @strings.ToLower asciiLib d) ∨
         (x509.Subject_CommonName csr ≠ ""
          ∧ n = @strings.ToLower asciiLib (x509.Subject_CommonName csr)).
Proof.
  assert (Hin : samplePrecertRequest
                ∈ prepareRequests
                    (trace_of (sampleWorld healthy)
                       (sampleIssuePrecertificateInner sampleCA sampleRequest
                          sampleProfile 0x7f01 0%Z 10000%Z) 1000%Z))
    by (vm_compute; left).
  split; [exact Hin|].
  destruct (@precertificate_names asciiLib sampleCALib Z (sampleWorld healthy)
              sampleCA sampleRequest sampleProfile 0x7f01%N 0%Z 10000%Z 1000%Z
              samplePrecertRequest Hin) as (csr & Hcsr & Hn & _).
  exists csr. split; [exact Hcsr|exact Hn].
Defined.

(** C9 as stated fails: the common name of the sample CSR is in none of
    its SANs, and it is handed to [Prepare] as a DNS name all the same. *)
Lemma precertificate_names_counterexample :
  x509.Subject_CommonName sampleCSR = "cn.example" ∧
  x509.DNSNames sampleCSR = ["San.example"] ∧
  map issuance.DNSNames
    (prepareRequests
       (trace_of (sampleWorld healthy)
          (sampleIssuePrecertificateInner sampleCA sampleRequest sampleProfile
             0x7f01 0%Z 10000%Z) 1000%Z))
  = [["cn.example"; "san.example"]].
Proof. repeat split; vm_compute; reflexivity. Qed.

(* --------------------------------------------------------------------- *)
(** ** Further properties of the issuance paths *)
(* --------------------------------------------------------------------- *)

(** Membership in a list that is known element by element. *)
Ltac elems Hin :=
  repeat (apply elem_of_cons in Hin as [->|Hin]);
  try (by apply elem_of_nil in Hin).

Lemma follows_spec (protocol l : list (Op * bool)) :
  follows protocol l = true →
  ∃ k, l = take k protocol ∨
       ∃ o ok, protocol !! k = Some (o, ok) ∧ l = take k protocol ++ [(o, negb ok)].
Proof.
  revert protocol. induction l as [|[o ok] l IH]; intros protocol Hf.
  - exists 0%nat. by left.
  - destruct protocol as [|[o' ok'] protocol]; [done|]. simpl in Hf.
    apply andb_true_iff in Hf as [Ho Hf]. apply bool_decide_eq_true in Ho as <-.
    case_bool_decide as Hok.
    + subst ok'. destruct (IH _ Hf) as [k [->|(o1 & ok1 & Hk & ->)]].
      * exists (Datatypes.S k). by left.
      * exists (Datatypes.S k). right. by exists o1, ok1.
    + apply bool_decide_eq_true in Hf as ->. exists 0%nat. right.
      exists o, ok'. split; [done|]. simpl. by destruct ok, ok'.
Qed.

Section MoreRuns.
Context `{GoLib} `{CALib}.
Context {S : Type} (h : handler S).

(** Every run of [IssueCertificate] follows the issuance protocol: its
    calls to the Storage Authority, the issuer and the SCT provider are an
    initial part of [issuanceProtocol], or an initial part followed by the
    next call with the other outcome, after which nothing is called; and
    the run succeeds exactly when the whole protocol was carried out. *)
Theorem IssueCertificate_follows_protocol
        (ca : certificateAuthorityImpl) (issueReq : capb.IssueCertificateRequest)
        (s : S) :
  let t := trace_of h (IssueCertificate ca issueReq) s in
  (∃ k, ops t = take k issuanceProtocol ∨
        ∃ o ok, issuanceProtocol !! k = Some (o, ok)
                ∧ ops t = take k issuanceProtocol ++ [(o, negb ok)]) ∧
  (is_Ok (result_of h (IssueCertificate ca issueReq) s) = true
   ↔ ops t = issuanceProtocol).
Proof.
  intros t. subst t. split.
  - apply follows_spec. unfold_ca. steps h; reflexivity.
  - unfold_ca. steps h; split; intros Hx; done.
Qed.

(** A failure of the random source is fatal and leaves no state behind:
    [IssueCertificate] returns the InternalServerError "failed to generate
    serial: <cause>", logs it once at audit level, and calls neither the
    Storage Authority nor an issuer. *)
Theorem random_source_failure
        (ca : certificateAuthorityImpl) (issueReq : capb.IssueCertificateRequest)
        (s : S) (n : nat) (err : error) :
  let t := trace_of h (IssueCertificate ca issueReq) s in
  randomReads t = [(n, Err err)] →
  result_of h (IssueCertificate ca issueReq) s =
    Err (InternalServerError ("failed to generate serial: " +:+ Error err)) ∧
  ops t = [] ∧
  auditErrs t = ["Serial randomness failed, err=[failed to generate serial: "
                 +:+ Error err +:+ "]"].
Proof.
  intros t. subst t. unfold_ca.
  steps h; intros Hr; try discriminate Hr; by injection Hr as <- <-.
Qed.

(** One serial per precertificate: the request handed to [Prepare] carries
    the bytes of the serial that [AddSerial] reserved, with the poison flag
    set and the expiry [AddSerial] was told; the serial marked ready is
    that same serial. *)
Theorem one_serial_per_precertificate
        (ca : certificateAuthorityImpl) (certProfile : certProfileWithID)
        (issueReq : capb.IssueCertificateRequest) (s : S)
        (req : issuance.IssuanceRequest) :
  let t := trace_of h (issuePrecertificate ca certProfile issueReq) s in
  req ∈ prepareRequests t →
  ∃ serial created,
    addSerialRequests t =
      [{| sapb.Serial := SerialToString serial;
          sapb.RegID := capb.RegistrationID issueReq;
          sapb.Created := created;
          sapb.Expires := issuance.NotAfter req |}] ∧
    issuance.Serial req = big.Bytes serial ∧
    issuance.IncludeCTPoison req = true ∧
    ∀ ready, ready ∈ readySerials t → ready = SerialToString serial.
Proof.
  intros t. subst t. unfold_ca.
  steps h; intros Hin; elems Hin;
    (eexists _, _; split; [reflexivity|]; split; [reflexivity|];
     split; [reflexivity|]; intros ready Hr; by elems Hr).
Qed.

(** Nothing is persisted as a final certificate unless it passed the
    determinism check: the DER of every [AddCertificate] was returned by
    [Issue] and has the TBS of a lint certificate that [Prepare]
    returned. *)
Theorem persisted_certificate_is_deterministic
        (ca : certificateAuthorityImpl) (issueReq : capb.IssueCertificateRequest)
        (s : S) (req : sapb.AddCertificateRequest) :
  let t := trace_of h (IssueCertificate ca issueReq) s in
  req ∈ addCertificateRequests t →
  sapb.Der req ∈ issuedDERs t ∧
  ∃ lint, lint ∈ lintDERs t ∧ tbsCertIsDeterministic lint (sapb.Der req) = None.
Proof.
  intros t. subst t. unfold_ca.
  steps h; intros Hin; elems Hin; simpl;
    (split; [by right; left|]; eexists; split; [by right; left|done]).
Qed.

(** The serial is marked ready only after the signed precertificate passed
    the determinism check against the lint certificate that was persisted. *)
Theorem ready_serial_is_deterministic
        (ca : certificateAuthorityImpl) (certProfile : certProfileWithID)
        (issueReq : capb.IssueCertificateRequest) (s : S) (ready : string) :
  let t := trace_of h (issuePrecertificate ca certProfile issueReq) s in
  ready ∈ readySerials t →
  ∃ lint precert,
    precertificateDERs t = [lint] ∧ lintDERs t = [lint] ∧
    issuedDERs t = [precert] ∧
    tbsCertIsDeterministic lint precert = None.
Proof.
  intros t. subst t. unfold_ca.
  steps h; intros Hin; elems Hin; by eexists _, _.
Qed.

(** The precertificate row: [AddPrecertificate] is handed the lint
    certificate with [OcspNotReady] set, the requester's registration ID
    and the NameID of the issuer that was picked at random from the pool of
    the CSR's key algorithm, an issuer whose certificate does not expire
    before the certificate to be issued. *)
Theorem precertificate_row
        (ca : certificateAuthorityImpl) (issueReq : capb.IssueCertificateRequest)
        (certProfile : certProfileWithID) (serialBigInt : N)
        (notBefore notAfter : Time) (s : S) (req : sapb.AddCertificateRequest) :
  let t := trace_of h (issuePrecertificateInner ca issueReq certProfile
                         serialBigInt notBefore notAfter) s in
  req ∈ addPrecertificateRequests t →
  sapb.OcspNotReady req = true ∧
  sapb.acRegID req = capb.RegistrationID issueReq ∧
  lintDERs t = [sapb.Der req] ∧
  ∃ csr issuerPool idx issuer,
    ParseCertificateRequest (capb.Csr issueReq) = Ok csr ∧
    byAlg (issuers ca) !! x509.PublicKeyAlgorithm_ csr = Some issuerPool ∧
    pickBounds t = [length issuerPool] ∧
    picks t = [idx] ∧
    issuerPool !! idx = Some issuer ∧
    prepareIssuers t = [issuer] ∧
    sapb.IssuerNameID req = issuance.NameID_ issuer ∧
    (notAfter ≤ issuance.Cert_NotAfter issuer)%Z.
Proof.
  intros t. subst t. unfold_ca.
  steps h; intros Hin; elems Hin; simpl;
    (split; [done|]; split; [done|]; split; [done|];
     eexists _, _, _, _; repeat split; try done;
     match goal with
     | E : (_ <? _)%Z = false |- _ => by apply Z.ltb_ge in E
     end).
Qed.

(** Without an issuer for the key algorithm of the CSR, the precertificate
    path stops after the policy check: InternalServerError "no issuers
    found for public key algorithm <name>", no issuer is picked and nothing
    is prepared, persisted or signed. *)
Theorem no_issuer_for_algorithm
        (ca : certificateAuthorityImpl) (issueReq : capb.IssueCertificateRequest)
        (certProfile : certProfileWithID) (serialBigInt : N)
        (notBefore notAfter : Time) (s : S) (csr : x509.CertificateRequest) :
  let t := trace_of h (issuePrecertificateInner ca issueReq certProfile
                         serialBigInt notBefore notAfter) s in
  ParseCertificateRequest (capb.Csr issueReq) = Ok csr →
  verifyAnswers t = [None] →
  default [] (byAlg (issuers ca) !! x509.PublicKeyAlgorithm_ csr) = [] →
  result_of h (issuePrecertificateInner ca issueReq certProfile
                 serialBigInt notBefore notAfter) s =
    Err (InternalServerError
           ("no issuers found for public key algorithm "
            +:+ algoName (x509.PublicKeyAlgorithm_ csr))) ∧
  ops t = [] ∧ pickBounds t = [].
Proof.
  intros t Hcsr. subst t. unfold_ca. rewrite Hcsr. reduce.
  step h. destruct r as [err|]; reduce.
  { steps h. intros Hv. discriminate Hv. }
  destruct (byAlg (issuers ca) !! x509.PublicKeyAlgorithm_ csr) as [pool|];
    reduce; [|done].
  intros _ ->. by reduce.
Qed.

(** An error of [VerifyCSR] reaches the caller as it is, after one audit
    log line; no issuer is picked and nothing is prepared, persisted or
    signed. *)
Theorem VerifyCSR_error_passes_through
        (ca : certificateAuthorityImpl) (issueReq : capb.IssueCertificateRequest)
        (certProfile : certProfileWithID) (serialBigInt : N)
        (notBefore notAfter : Time) (s : S) (err : error) :
  let t := trace_of h (issuePrecertificateInner ca issueReq certProfile
                         serialBigInt notBefore notAfter) s in
  verifyAnswers t = [Some err] →
  result_of h (issuePrecertificateInner ca issueReq certProfile
                 serialBigInt notBefore notAfter) s = Err err ∧
  auditErrs t = [Error err] ∧ ops t = [] ∧ pickBounds t = [].
Proof.
  intros t. subst t. unfold_ca.
  steps h; intros Hv; try discriminate Hv; by injection Hv as <-.
Qed.

(** When the SCT provider fails, its error reaches the caller as it is;
    the precertificate was signed and its serial marked ready, and the
    final-certificate path is not entered. *)
Theorem GetSCTs_failure
        (ca : certificateAuthorityImpl) (issueReq : capb.IssueCertificateRequest)
        (s : S) (err : error) :
  let t := trace_of h (IssueCertificate ca issueReq) s in
  getSCTsErrors t = [err] →
  result_of h (IssueCertificate ca issueReq) s = Err err ∧
  ops t = [(OpAddSerial, true); (OpPrepare, true); (OpAddPrecertificate, true);
           (OpIssue, true); (OpSetCertificateStatusReady, true);
           (OpGetSCTs, false)].
Proof.
  intros t. subst t. unfold_ca.
  steps h; intros Hv; try discriminate Hv; by injection Hv as <-.
Qed.

(** When signing the precertificate fails, the lint certificate is already
    persisted, the serial is not marked ready, the error is the
    InternalServerError "failed to sign precertificate: <cause>", and the
    [signature_errors] counter is incremented, under the label "HSM",
    exactly when the cause is a PKCS#11 error. *)
Theorem precertificate_signing_failure
        (ca : certificateAuthorityImpl) (certProfile : certProfileWithID)
        (issueReq : capb.IssueCertificateRequest) (s : S) (err : error) :
  let t := trace_of h (issuePrecertificate ca certProfile issueReq) s in
  issueErrors t = [err] →
  result_of h (issuePrecertificate ca certProfile issueReq) s =
    Err (InternalServerError ("failed to sign precertificate: " +:+ Error err)) ∧
  precertificateDERs t = lintDERs t ∧ length (lintDERs t) = 1%nat ∧
  readySerials t = [] ∧
  signErrors t = (if errors_As_pkcs11 err then ["HSM"] else []).
Proof.
  intros t. subst t. unfold_ca.
  steps h; intros Hv; try discriminate Hv; injection Hv as <-;
    repeat split;
    match goal with
    | E : errors_As_pkcs11 _ = _ |- _ => by rewrite E
    end.
Qed.

(** A final certificate that is returned was returned by the one [Issue]
    call of the path and handed to [AddCertificate] with the caller's
    registration ID, after the Storage Authority was asked about the serial
    of the precertificate. *)
Theorem final_certificate_returned
        (ca : certificateAuthorityImpl) (certProfile : certProfileWithID)
        (precertDER : list byte) (sctBytes : list (list byte))
        (regID orderID : Z) (s : S) (certDER : list byte) :
  let p := issueCertificateForPrecertificate ca certProfile precertDER sctBytes
             regID orderID in
  result_of h p s = Ok certDER →
  issuedDERs (trace_of h p s) = [certDER] ∧
  (∃ issued,
      addCertificateRequests (trace_of h p s) =
        [{| sapb.Der := certDER; sapb.acRegID := regID; sapb.Issued := issued;
            sapb.IssuerNameID := 0; sapb.OcspNotReady := false |}]) ∧
  ∃ precert,
    ParseCertificate precertDER = Ok precert ∧
    checkedSerials (trace_of h p s) = [SerialToString (x509.SerialNumber precert)] ∧
    ∃ issuer, byNameID (issuers ca) !! IssuerNameID precert = Some issuer
              ∧ prepareIssuers (trace_of h p s) = [issuer].
Proof.
  intros p. subst p. unfold_ca.
  steps h; intros Hr; try discriminate Hr; injection Hr as <-.
  split; [done|]. split; [by eexists|]. eexists. split; [done|].
  split; [done|]. by eexists.
Qed.

(** [IssueCertificate] calls no collaborator unless the request is
    complete, the SCT service is set and the profile is configured. *)
Theorem IssueCertificate_gate
        (ca : certificateAuthorityImpl) (issueReq : capb.IssueCertificateRequest)
        (s : S) :
  trace_of h (IssueCertificate ca issueReq) s ≠ [] →
  capb.Csr issueReq ≠ [] ∧ capb.RegistrationID issueReq ≠ 0%Z ∧
  capb.OrderID issueReq ≠ 0%Z ∧ sctClient ca ≠ None ∧
  is_Some (certProfiles ca !! capb.CertProfileName issueReq).
Proof.
  unfold_ca. unfold core.IsNilOrZero_bytes, core.IsNilOrZero_int64.
  destruct (capb.Csr issueReq) as [|b l]; [done|].
  repeat case_bool_decide; try done. simpl.
  destruct (sctClient ca); [|done].
  destruct (certProfiles ca !! capb.CertProfileName issueReq); [|done].
  intros _. by repeat split.
Qed.
End MoreRuns.


(* --------------------------------------------------------------------- *)
(** ** The ASN.1 reader *)
(* --------------------------------------------------------------------- *)

Lemma land_high_bit (b : byte) :
  (N.land (Byte.to_N b) 0x80 =? 0)%N = (Byte.to_N b <? 128)%N.
Proof. destruct b; reflexivity. Qed.

Lemma land_low_bits (b : byte) :
  (128 ≤ Byte.to_N b)%N → Byte.to_N b = (0x80 + N.land (Byte.to_N b) 0x7f)%N.
Proof. destruct b; vm_compute; try reflexivity; intros Hc; exfalso; by apply Hc. Qed.

Lemma lor_shift_byte (x b : N) : (b < 256)%N → N.lor (N.shiftl x 8) b = (x * 256 + b)%N.
Proof.
  intros Hb. rewrite N.shiftl_mul_pow2. change (2 ^ 8)%N with 256%N.
  assert (Hland : N.land (x * 256) b = 0%N).
  { apply N.bits_inj. intros i. rewrite N.land_spec, N.bits_0.
    destruct (N.lt_ge_cases i 8) as [Hi|Hi].
    - change 256%N with (2 ^ 8)%N. by rewrite N.mul_pow2_bits_low.
    - destruct (N.eq_dec b 0%N) as [->|Hnz]; [by rewrite N.bits_0, andb_false_r|].
      rewrite (N.bits_above_log2 b i), andb_false_r; [done|].
      apply N.lt_le_trans with 8%N; [|done]. apply N.log2_lt_pow2; lia. }
  by rewrite <- N.lxor_lor, <- N.add_nocarry_lxor.
Qed.

Lemma SetBytes_bound (v : list byte) : (big.SetBytes v < 256 ^ N.of_nat (length v))%N.
Proof.
  induction v as [|b v IH] using rev_ind; [reflexivity|].
  rewrite SetBytes_app, length_app, Nat2N.inj_add, N.pow_add_r. simpl.
  pose proof (byte_to_N_lt b). change (256 ^ 1)%N with 256%N.
  assert ((big.SetBytes v + 1) * 256 ≤ 256 ^ N.of_nat (length v) * 256)%N
    by (apply N.mul_le_mono_r; lia).
  lia.
Qed.

Lemma readUnsigned_SetBytes (v : list byte) :
  (length v ≤ 4)%nat → cryptobyte.readUnsigned v = big.SetBytes v.
Proof.
  induction v as [|b v IH] using rev_ind; [done|].
  rewrite length_app. simpl. intros Hlen.
  unfold cryptobyte.readUnsigned in *. rewrite fold_left_app. simpl.
  rewrite IH by lia. rewrite lor_shift_byte by apply byte_to_N_lt.
  rewrite SetBytes_app. unfold cryptobyte.wrap32. apply N.mod_small.
  pose proof (SetBytes_bound v) as Hb. pose proof (byte_to_N_lt b).
  assert (256 ^ N.of_nat (length v) ≤ 256 ^ 3)%N by (apply N.pow_le_mono_r; lia).
  change (256 ^ 3)%N with 16777216%N in *. change (2 ^ 32)%N with 4294967296%N. lia.
Qed.

Lemma SetBytes_cons (b : byte) (v : list byte) :
  big.SetBytes (b :: v) = (Byte.to_N b * 256 ^ N.of_nat (length v) + big.SetBytes v)%N.
Proof.
  induction v as [|c v IH] using rev_ind; [unfold big.SetBytes; simpl; destruct (Byte.to_N b); lia|].
  rewrite app_comm_cons, !SetBytes_app, IH, length_app, Nat2N.inj_add, N.pow_add_r.
  simpl. change (256 ^ 1)%N with 256%N. lia.
Qed.

Lemma shiftr_top_byte (b : byte) (v : list byte) :
  N.shiftr (big.SetBytes (b :: v)) (N.of_nat (length v) * 8) = Byte.to_N b.
Proof.
  rewrite N.shiftr_div_pow2, SetBytes_cons.
  replace (2 ^ (N.of_nat (length v) * 8))%N with (256 ^ N.of_nat (length v))%N.
  2:{ rewrite N.mul_comm, N.pow_mul_r. done. }
  pose proof (SetBytes_bound v).
  symmetry. apply N.div_unique with (r := big.SetBytes v); [done|lia].
Qed.

Lemma readASN1_layout (s : list byte) (tag : N) (contents rest : list byte) :
  cryptobyte.readASN1 s true = Some (tag, contents, rest) →
  ∃ t header,
    s = t :: header ++ contents ++ rest ∧ Byte.to_N t = tag ∧
    N.land tag 0x1f ≠ 0x1f%N ∧
    lengthHeader header (N.of_nat (length contents)) ∧
    (1 + N.of_nat (length header) + N.of_nat (length contents) < 2 ^ 32)%N.
Proof.
  unfold cryptobyte.readASN1.
  destruct s as [|t [|lb s2]]; try done.
  destruct (N.eqb_spec (N.land (Byte.to_N t) 31) 31) as [|Htag]; [done|].
  unfold cryptobyte.elementLength. rewrite land_high_bit.
  destruct (N.ltb_spec (Byte.to_N lb) 128) as [Hshort|Hlong].
  - unfold cryptobyte.ReadBytes.
    replace (N.to_nat (Byte.to_N lb + 2)) with (Datatypes.S (Datatypes.S (N.to_nat (Byte.to_N lb)))) by lia.
    destruct (Nat.ltb_spec (length (t :: lb :: s2)) (Datatypes.S (Datatypes.S (N.to_nat (Byte.to_N lb))))) as [|Hlen]; [done|].
    simpl in Hlen. simpl. intros [= <- <- <-].
    exists t, [lb]. simpl. rewrite !drop_0, take_drop.
    split; [done|]. split; [done|]. split; [done|].
    rewrite length_take_le by lia. rewrite N2Nat.id.
    destruct (N.ltb_spec (Byte.to_N lb) 128); [|lia].
    split; [done|].
    change (2 ^ 32)%N with 4294967296%N. lia.
  - set (lenLen := N.land (Byte.to_N lb) 127).
    assert (Hlb : Byte.to_N lb = (128 + lenLen)%N) by (by apply land_low_bits).
    destruct (N.eqb_spec lenLen 0) as [|Hk0]; [done|].
    destruct (N.ltb_spec 4 lenLen) as [|Hk4]; [done|]. simpl orb.
    match goal with
    | |- context [(?a <? ?b)%nat] => destruct (Nat.ltb_spec a b) as [|Hlen2]; [done|]
    end.
    change (drop 2 (t :: lb :: s2)) with s2.
    set (bytes := take (N.to_nat lenLen) s2).
    assert (Hbl : length bytes = N.to_nat lenLen) by (apply length_take_le; lia).
    rewrite readUnsigned_SetBytes by lia.
    set (len32 := big.SetBytes bytes).
    destruct (N.ltb_spec len32 128) as [|H128]; [done|].
    destruct (N.eqb_spec (N.shiftr len32 ((lenLen - 1) * 8)) 0) as [|Htop]; [done|].
    unfold cryptobyte.wrap32.
    assert (Hb32 : (len32 < 2 ^ 32)%N).
    { pose proof (SetBytes_bound bytes) as Hb. fold len32 in Hb.
      eapply N.lt_le_trans; [exact Hb|]. rewrite Hbl, N2Nat.id.
      change (2 ^ 32)%N with (256 ^ 4)%N. apply N.pow_le_mono_r; lia. }
    destruct (N.ltb_spec ((2 + lenLen + len32) mod 2 ^ 32) len32) as [|Hov]; [done|].
    assert (Hsum : (2 + lenLen + len32 < 2 ^ 32)%N).
    { destruct (N.lt_ge_cases (2 + lenLen + len32) (2 ^ 32)) as [|Hge]; [done|].
      exfalso.
      assert ((2 + lenLen + len32) mod 2 ^ 32 = 2 + lenLen + len32 - 2 ^ 32)%N as Hm.
      { symmetry. apply N.mod_unique with (q := 1%N); lia. }
      rewrite Hm in Hov. lia. }
    rewrite N.mod_small by done.
    unfold cryptobyte.ReadBytes.
    replace (N.to_nat (2 + lenLen + len32))
      with (Datatypes.S (Datatypes.S (N.to_nat lenLen + N.to_nat len32))) by lia.
    match goal with
    | |- context [(?a <? ?b)%nat] => destruct (Nat.ltb_spec a b) as [|Hlen]; [done|]
    end.
    simpl in Hlen.
    replace (N.to_nat (2 + lenLen)) with (Datatypes.S (Datatypes.S (N.to_nat lenLen))) by lia.
    simpl. intros [= <- <- <-].
    exists t, (lb :: bytes). split.
    { simpl. do 2 f_equal. rewrite drop_take_drop by lia.
      unfold bytes. by rewrite take_drop. }
    split; [done|]. split; [done|].
    assert (Hcl : length (drop (N.to_nat lenLen) (take (N.to_nat lenLen + N.to_nat len32) s2))
                  = N.to_nat len32).
    { rewrite length_drop, length_take_le by lia. lia. }
    rewrite Hcl, N2Nat.id. split.
    + simpl. destruct (N.ltb_spec (Byte.to_N lb) 128); [lia|].
      rewrite Hbl, N2Nat.id. split; [done|]. split; [lia|]. split; [done|].
      split; [done|].
      destruct bytes as [|b0 tl] eqn:Eb; [simpl in Hbl; lia|]. simpl.
      intros [= ->]. apply Htop. unfold len32.
      replace ((lenLen - 1) * 8)%N with (N.of_nat (length tl) * 8)%N
        by (simpl in Hbl; lia).
      by rewrite shiftr_top_byte.
    + simpl length. rewrite Hbl. lia.
Qed.

Lemma land_low_bits_value (b : byte) (k : N) :
  Byte.to_N b = (128 + k)%N → N.land (Byte.to_N b) 127 = k.
Proof.
  intros Hb. assert (128 ≤ Byte.to_N b)%N as Hge by lia.
  apply land_low_bits in Hge. lia.
Qed.

Lemma readASN1_accepts (t : byte) (header contents rest : list byte) :
  N.land (Byte.to_N t) 0x1f ≠ 0x1f%N →
  lengthHeader header (N.of_nat (length contents)) →
  (1 + N.of_nat (length header) + N.of_nat (length contents) < 2 ^ 32)%N →
  cryptobyte.readASN1 (t :: header ++ contents ++ rest) true
  = Some (Byte.to_N t, contents, rest).
Proof.
  intros Htag Hhdr Hsize. destruct header as [|first bytes]; [done|].
  simpl in Hhdr. unfold cryptobyte.readASN1. simpl app.
  destruct (N.eqb_spec (N.land (Byte.to_N t) 31) 31) as [|_]; [done|].
  unfold cryptobyte.elementLength. rewrite land_high_bit.
  destruct (N.ltb_spec (Byte.to_N first) 128) as [Hshort|Hlong].
  - destruct Hhdr as [-> Hn]. simpl app. unfold cryptobyte.ReadBytes.
    replace (N.to_nat (Byte.to_N first + 2))
      with (Datatypes.S (Datatypes.S (length contents))) by lia.
    match goal with
    | |- context [(?a <? ?b)%nat] => destruct (Nat.ltb_spec a b) as [Hc|_]
    end.
    { simpl in Hc. rewrite length_app in Hc. lia. }
    simpl. rewrite !drop_0. by rewrite take_app_length, drop_app_length.
  - destruct Hhdr as (Hfirst & Hk & Hval & H128 & Hhead).
    rewrite (land_low_bits_value first (N.of_nat (length bytes))) by done.
    destruct (N.eqb_spec (N.of_nat (length bytes)) 0) as [|_]; [lia|].
    destruct (N.ltb_spec 4 (N.of_nat (length bytes))) as [|_]; [lia|]. simpl orb.
    rewrite Nat2N.id.
    match goal with
    | |- context [(?a <? ?b)%nat] => destruct (Nat.ltb_spec a b) as [Hc|_]
    end.
    { simpl in Hc. rewrite !length_app in Hc. lia. }
    change (drop 2 (t :: first :: bytes ++ contents ++ rest))
      with (bytes ++ contents ++ rest).
    rewrite take_app_length, readUnsigned_SetBytes, Hval by lia.
    destruct (N.ltb_spec (N.of_nat (length contents)) 128) as [|_]; [lia|].
    destruct bytes as [|b0 tl] eqn:Eb; [simpl in Hk; lia|].
    assert (Htop : N.shiftr (N.of_nat (length contents))
                     ((N.of_nat (length (b0 :: tl)) - 1) * 8) ≠ 0%N).
    { rewrite <- Hval.
      replace ((N.of_nat (length (b0 :: tl)) - 1) * 8)%N
        with (N.of_nat (length tl) * 8)%N by (simpl length; lia).
      rewrite shiftr_top_byte. intros Hz. apply Hhead. simpl. f_equal.
      rewrite <- (byteOf_to_N b0), Hz. done. }
    destruct (N.eqb_spec (N.shiftr (N.of_nat (length contents))
                            ((N.of_nat (length (b0 :: tl)) - 1) * 8)) 0) as [|_];
      [done|].
    unfold cryptobyte.wrap32. simpl length in Hsize.
    rewrite N.mod_small by (simpl length; lia).
    destruct (N.ltb_spec (2 + N.of_nat (length (b0 :: tl)) + N.of_nat (length contents))
                (N.of_nat (length contents))) as [|_]; [lia|].
    unfold cryptobyte.ReadBytes.
    replace (N.to_nat (2 + N.of_nat (length (b0 :: tl)) + N.of_nat (length contents)))
      with (Datatypes.S (Datatypes.S (length (b0 :: tl) + length contents))) by lia.
    match goal with
    | |- context [(?a <? ?b)%nat] => destruct (Nat.ltb_spec a b) as [Hc|_]
    end.
    { simpl in Hc. rewrite !length_app in Hc. lia. }
    replace (N.to_nat (2 + N.of_nat (length (b0 :: tl))))
      with (Datatypes.S (Datatypes.S (length (b0 :: tl)))) by lia.
    rewrite <- Eb. clear Eb Htop Hhead. simpl.
    rewrite app_assoc.
    replace (length bytes + length contents)%nat with (length (bytes ++ contents))
      by apply length_app.
    rewrite take_app_length, drop_app_length. by rewrite drop_app_length.
Qed.

(** [ReadASN1] accepts exactly the inputs that start with the tag byte, a
    DER length header and as many content bytes as the header says (the
    whole element being shorter than 2^32 bytes); it returns the contents
    and what follows the element. *)
Theorem ReadASN1_layout (s : list byte) (tag : N) (contents rest : list byte) :
  cryptobyte.ReadASN1 s tag = Some (contents, rest) ↔
  ∃ t header,
    s = t :: header ++ contents ++ rest ∧ Byte.to_N t = tag ∧
    N.land tag 0x1f ≠ 0x1f%N ∧
    lengthHeader header (N.of_nat (length contents)) ∧
    (1 + N.of_nat (length header) + N.of_nat (length contents) < 2 ^ 32)%N.
Proof.
  unfold cryptobyte.ReadASN1. split.
  - destruct (cryptobyte.readASN1 s true) as [[[t' out] rest']|] eqn:E; [|done].
    destruct (N.eqb_spec t' tag) as [->|]; [|done].
    intros [= -> ->]. by apply readASN1_layout.
  - intros (t & header & -> & <- & Htag & Hhdr & Hsize).
    rewrite readASN1_accepts by done. by rewrite N.eqb_refl.
Qed.

Lemma ReadASN1_app (s : list byte) (tag : N) (contents rest extra : list byte) :
  cryptobyte.ReadASN1 s tag = Some (contents, rest) →
  cryptobyte.ReadASN1 (s ++ extra) tag = Some (contents, rest ++ extra).
Proof.
  intros (t & header & -> & Ht & Htag & Hhdr & Hsize)%ReadASN1_layout.
  apply ReadASN1_layout. exists t, header.
  split; [|done]. simpl. by rewrite <- !app_assoc.
Qed.

Lemma extractTBSCertBytes_app (der extra tbs : list byte) :
  extractTBSCertBytes der = Ok tbs → extractTBSCertBytes (der ++ extra) = Ok tbs.
Proof.
  intros [(input & rest & rest' & H1 & H2) Hne]%extractTBSCertBytes_Ok.
  apply extractTBSCertBytes_Ok. split; [|done].
  exists input, (rest ++ extra), rest'. split; [|done]. by apply ReadASN1_app.
Qed.

(** The determinism check reads the first element of each input only:
    bytes that follow a certificate do not change a nil result. *)
Theorem tbsCertIsDeterministic_trailing_bytes
        (lintCertBytes leafCertBytes extra extra' : list byte) :
  tbsCertIsDeterministic lintCertBytes leafCertBytes = None →
  tbsCertIsDeterministic (lintCertBytes ++ extra) (leafCertBytes ++ extra') = None.
Proof.
  unfold tbsCertIsDeterministic, core.IsNilOrZero_bytes.
  destruct lintCertBytes as [|a l]; [done|].
  destruct leafCertBytes as [|b m]; [done|]. simpl.
  destruct (extractTBSCertBytes (a :: l)) as [t1|] eqn:E1; [|done].
  destruct (extractTBSCertBytes (b :: m)) as [t2|] eqn:E2; [|done].
  case_bool_decide as Heq; [|done]. intros _.
  apply (extractTBSCertBytes_app _ extra) in E1.
  apply (extractTBSCertBytes_app _ extra') in E2.
  simpl in E1, E2. rewrite E1, E2. by rewrite bool_decide_eq_true_2.
Qed.

(** The result of the determinism check, nil or not, does not depend on
    which certificate is passed first. *)
Theorem tbsCertIsDeterministic_sym (lintCertBytes leafCertBytes : list byte) :
  tbsCertIsDeterministic lintCertBytes leafCertBytes = None ↔
  tbsCertIsDeterministic leafCertBytes lintCertBytes = None.
Proof.
  assert (Hone : ∀ a b, tbsCertIsDeterministic a b = None →
                        tbsCertIsDeterministic b a = None).
  { intros a b. unfold tbsCertIsDeterministic, core.IsNilOrZero_bytes.
    destruct a as [|x a]; [done|]. destruct b as [|y b]; [done|]. simpl.
    destruct (extractTBSCertBytes (x :: a)) as [t1|]; [|done].
    destruct (extractTBSCertBytes (y :: b)) as [t2|]; [|done].
    case_bool_decide as Heq; [|done]. intros _.
    by rewrite bool_decide_eq_true_2. }
  split; apply Hone.
Qed.

(* --------------------------------------------------------------------- *)
(** ** Further properties of the identifiers *)
(* --------------------------------------------------------------------- *)

Section MoreIdentifiers.
Context `{GoLib}.

Lemma sortedBelow_unique (l1 l2 : list identifier.ACMEIdentifier) :
  sortedBelow l1 → sortedBelow l2 → (∀ x, x ∈ l1 ↔ x ∈ l2) → l1 = l2.
Proof.
  intros H1 H2 Heq.
  apply (StronglySorted_unique_strong
           (upTo identifier.cmpIdent identifier.registered)).
  - intros a b _ _. apply upTo_antisym. apply ident_asym.
  - by apply strictlyBelow_upTo.
  - by apply strictlyBelow_upTo.
  - apply NoDup_Permutation; [| |done].
    + exact (strictlyBelow_NoDup _ _ ident_asym _ H1).
    + exact (strictlyBelow_NoDup _ _ ident_asym _ H2).
Qed.

(** [Normalize] treats its input as a set: two lists of registered
    identifiers with the same lower-cased identifiers, in whatever order
    and multiplicity, normalise to the same list. *)
Theorem Normalize_set (xs ys : list identifier.ACMEIdentifier) :
  Forall identifier.registered xs →
  Forall identifier.registered ys →
  (∀ x, x ∈ map identifier.lowerValue xs ↔ x ∈ map identifier.lowerValue ys) →
  identifier.Normalize xs = identifier.Normalize ys.
Proof.
  intros Hx Hy Heq. apply sortedBelow_unique.
  - by apply Normalize_sortedBelow.
  - by apply Normalize_sortedBelow.
  - intros x. by rewrite !Normalize_elem.
Qed.

Lemma fromX509_registered_input commonName dnsNames ipAddresses :
  Forall identifier.registered
    ((map identifier.NewDNS dnsNames
      ++ (if decide (commonName ≠ "") then [identifier.NewDNS commonName] else []))
     ++ map (λ ip, {| identifier.Type_ := identifier.TypeIP;
                      identifier.Value := IP_String ip |}) ipAddresses).
Proof.
  rewrite !Forall_app. split; [split|].
  - apply Forall_forall. intros x Hx%list_elem_of_In.
    apply in_map_iff in Hx as (d & <- & _). by left.
  - destruct (decide (commonName ≠ "")); repeat constructor.
  - apply Forall_forall. intros x Hx%list_elem_of_In.
    apply in_map_iff in Hx as (d & <- & _). by right.
Qed.

Lemma fromX509_Normalize commonName dnsNames ipAddresses :
  identifier.fromX509 commonName dnsNames ipAddresses =
  identifier.Normalize
    ((map identifier.NewDNS dnsNames
      ++ (if decide (commonName ≠ "") then [identifier.NewDNS commonName] else []))
     ++ map (λ ip, {| identifier.Type_ := identifier.TypeIP;
                      identifier.Value := IP_String ip |}) ipAddresses).
Proof.
  unfold identifier.fromX509.
  rewrite (fold_left_snoc (λ ip, {| identifier.Type_ := identifier.TypeIP;
                                    identifier.Value := IP_String ip |})).
  rewrite (fold_left_snoc identifier.NewDNS). simpl.
  destruct (decide (commonName ≠ "")); [done|]. by rewrite app_nil_r.
Qed.

(** The identifiers of a certificate or CSR ([FromCert], [FromCSR]) are of
    the registered types, without a duplicate, DNS identifiers first and
    each type in increasing order of the values. *)
Theorem fromX509_sorted commonName dnsNames ipAddresses :
  Forall identifier.registered (identifier.fromX509 commonName dnsNames ipAddresses) ∧
  NoDup (identifier.fromX509 commonName dnsNames ipAddresses) ∧
  StronglySorted identifier.identLt
    (identifier.fromX509 commonName dnsNames ipAddresses).
Proof.
  rewrite fromX509_Normalize.
  pose proof (fromX509_registered_input commonName dnsNames ipAddresses) as Hr.
  pose proof (Normalize_sortedBelow _ Hr) as Hs.
  split; [|split].
  - apply Forall_forall. intros y Hy%Normalize_elem.
    pose proof (lowerValue_registered _ Hr) as Hl.
    rewrite Forall_forall in Hl. by apply Hl.
  - exact (strictlyBelow_NoDup _ _ ident_asym _ Hs).
  - by apply sortedBelow_identLt.
Qed.

Lemma ToValues_loop_sorted idents :
  ∀ dnsNames0 ipAddresses0 dnsNames ipAddresses,
    StronglySorted identifier.identLt idents →
    identifier.ToValues_loop idents dnsNames0 ipAddresses0
    = Ok (dnsNames, ipAddresses) →
    StronglySorted (λ a b, strings.less a b = true) dnsNames0 →
    (∀ a x, a ∈ dnsNames0 → x ∈ idents →
            identifier.Type_ x = identifier.TypeDNS →
            strings.less a (identifier.Value x) = true) →
    StronglySorted (λ a b, strings.less a b = true) dnsNames.
Proof.
  induction idents as [|x idents IH]; intros d0 i0 d i Hs; simpl.
  - by intros [= <- <-].
  - apply StronglySorted_cons in Hs as [Hx Hs].
    destruct (decide (identifier.Type_ x = identifier.TypeDNS)) as [Hd|Hd].
    + intros Hloop Hd0 Hlt. eapply IH; [done|exact Hloop| |].
      * apply StronglySorted_app_2; [|done|repeat constructor].
        intros a b Ha ->%list_elem_of_singleton. apply Hlt; [done|by left|done].
      * intros a y [Ha| ->%list_elem_of_singleton]%elem_of_app Hy Hty.
        -- apply Hlt; [done|by right|done].
        -- rewrite Forall_forall in Hx.
           destruct (Hx y Hy) as [[_ Hc]|[_ Hl]]; [|done].
           rewrite Hty in Hc. discriminate.
    + destruct (decide (identifier.Type_ x = identifier.TypeIP)); [|done].
      destruct (ParseIP (identifier.Value x)); [|done].
      intros Hloop Hd0 Hlt. eapply IH; [done|exact Hloop|done|].
      intros a y Ha Hy Hty. apply Hlt; [done|by right|done].
Qed.

(** The DNS names [ToValues] extracts from the identifiers of a CSR are in
    strictly increasing order: the request handed to the issuer never
    names a domain twice. *)
Theorem FromCSR_names_sorted commonName dnsNames ipAddresses names ips :
  identifier.ToValues (identifier.fromX509 commonName dnsNames ipAddresses)
  = Ok (names, ips) →
  StronglySorted (λ a b, strings.less a b = true) names.
Proof.
  intros Hv. unfold identifier.ToValues in Hv.
  eapply ToValues_loop_sorted; [|exact Hv|constructor|].
  - apply fromX509_sorted.
  - by intros a x Ha%elem_of_nil.
Qed.

(** [ToValues] fails on the identifiers of a CSR only for an IP address
    whose text does not parse. *)
Theorem FromCSR_ToValues_error commonName dnsNames ipAddresses err :
  identifier.ToValues (identifier.fromX509 commonName dnsNames ipAddresses)
  = Err err →
  ∃ ip, ip ∈ ipAddresses ∧
        ParseIP (strings.ToLower (IP_String ip)) = None ∧
        err = errorString ("parsing IP address: " +:+ strings.ToLower (IP_String ip)).
Proof.
  unfold identifier.ToValues.
  assert (G : ∀ idents d0 i0,
             Forall identifier.registered idents →
             identifier.ToValues_loop idents d0 i0 = Err err →
             ∃ x, x ∈ idents ∧ identifier.Type_ x = identifier.TypeIP ∧
                  ParseIP (identifier.Value x) = None ∧
                  err = errorString ("parsing IP address: " +:+ identifier.Value x)).
  { induction idents as [|x idents IH]; intros d0 i0 Hr; simpl; [done|].
    apply Forall_cons in Hr as [Hx Hr].
    destruct (decide (identifier.Type_ x = identifier.TypeDNS)) as [Hd|Hd].
    - intros (y & Hy & ?)%IH; [|done]. exists y. split; [by right|done].
    - destruct (decide (identifier.Type_ x = identifier.TypeIP)) as [Hi|Hi].
      + destruct (ParseIP (identifier.Value x)) eqn:Hp.
        * intros (y & Hy & ?)%IH; [|done]. exists y. split; [by right|done].
        * intros [= <-]. exists x. split; [by left|done].
      + by destruct Hx. }
  intros (x & Hx & Hty & Hp & ->)%G; [|apply fromX509_sorted].
  apply fromX509_elem, list_elem_of_In, in_map_iff in Hx as (y & <- & Hy).
  apply in_app_or in Hy as [Hy|Hy].
  - assert (identifier.Type_ y = identifier.TypeDNS) as Hdns.
    { apply in_app_or in Hy as [Hy|Hy].
      - by apply in_map_iff in Hy as (d & <- & _).
      - destruct (decide (commonName ≠ "")); [|done].
        by destruct Hy as [<-|[]]. }
    simpl in Hty. rewrite Hdns in Hty. discriminate.
  - apply in_map_iff in Hy as (ip & <- & Hip). exists ip.
    split; [by apply list_elem_of_In|done].
Qed.
End MoreIdentifiers.

(* --------------------------------------------------------------------- *)
(** ** Serial numbers do not collide by construction *)
(* --------------------------------------------------------------------- *)

(** Two serials generated under the same accepted prefix are equal only if
    the random bytes drawn were the same. *)
Theorem serial_determines_random `{GoLib} `{CALib} {S1 S2}
        (h1 : handler S1) (h2 : handler S2)
        sctService boulderIssuers certificateProfiles serialPrefix maxNames
        (ca : certificateAuthorityImpl) (s1 : S1) (s2 : S2)
        (n1 n2 : nat) (random1 random2 : list byte) :
  NewCertificateAuthorityImpl sctService boulderIssuers certificateProfiles
    serialPrefix maxNames = Ok ca →
  randomReads (trace_of h1 (generateSerialNumber ca) s1) = [(n1, Ok random1)] →
  randomReads (trace_of h2 (generateSerialNumber ca) s2) = [(n2, Ok random2)] →
  result_of h1 (generateSerialNumber ca) s1 = result_of h2 (generateSerialNumber ca) s2 →
  random1 = random2.
Proof.
  intros [Hp Hrange]%NewCertificateAuthorityImpl_prefix. unfold_ca. rewrite Hp.
  clear Hp.
  assert (Hhead : ∀ r, head (serialPrefix :: r) ≠ Some x00).
  { intros r. simpl. intros [= ->]. simpl in Hrange. lia. }
  steps h1; intros Hr1; injection Hr1 as <- Hr1; try discriminate Hr1.
  steps h2; intros Hr2; injection Hr2 as <- Hr2; try discriminate Hr2.
  subst. intros [= Heq]. apply (f_equal big.Bytes) in Heq.
  rewrite !Bytes_SetBytes in Heq by done. congruence.
Qed.

(* --------------------------------------------------------------------- *)
(** ** Start-up *)
(* --------------------------------------------------------------------- *)

Section MoreStartup.
Context `{CALib}.

Lemma makeCertificateProfilesMap_loop_spec (l : list (string * issuance.ProfileConfig)) :
  ∀ acc,
    NoDup (fst <$> l) →
    match makeCertificateProfilesMap_loop l acc with
    | Ok m =>
        (∀ k cfg, (k, cfg) ∈ l → is_Ok (NewProfile cfg) = true) ∧
        ∀ k cp, m !! k = Some cp ↔
                ((k ∉ (fst <$> l)) ∧ acc !! k = Some cp) ∨
                ∃ cfg p, (k, cfg) ∈ l ∧ NewProfile cfg = Ok p
                         ∧ cp = {| name := k; profile := Some p |}
    | Err _ => ∃ k cfg, (k, cfg) ∈ l ∧ is_Ok (NewProfile cfg) = false
    end.
Proof.
  induction l as [|[k0 cfg0] l IH]; intros acc Hnd; simpl.
  - split; [by intros k cfg ?%elem_of_nil|]. intros k cp. split.
    + intros Hk. left. split; [apply not_elem_of_nil|done].
    + intros [[_ ?]|(? & ? & []%elem_of_nil & _)]. done.
  - apply NoDup_cons in Hnd as [Hk0 Hnd].
    destruct (NewProfile cfg0) as [p0|e0] eqn:Hp0.
    + specialize (IH (<[k0:={| name := k0; profile := Some p0 |}]> acc) Hnd).
      destruct (makeCertificateProfilesMap_loop l _) as [m|e].
      * destruct IH as [IHok IH]. split.
        { intros k cfg [[= -> ->]|Hin]%elem_of_cons; [by rewrite Hp0|by eapply IHok]. }
        intros k cp. rewrite IH. split.
        -- intros [[Hk Hacc]|(cfg & p & Hin & Hp & ->)].
           ++ destruct (decide (k = k0)) as [->|Hne].
              ** rewrite lookup_insert_eq in Hacc. injection Hacc as <-.
                 right. exists cfg0, p0. split; [by left|done].
              ** rewrite lookup_insert_ne in Hacc by done. left.
                 split; [|done]. intros [?|?]%elem_of_cons; done.
           ++ right. exists cfg, p. split; [by right|done].
        -- intros [[Hk Hacc]|(cfg & p & Hin & Hp & ->)].
           ++ left. apply not_elem_of_cons in Hk as [Hne Hk]. simpl in Hne.
              split; [done|]. by rewrite lookup_insert_ne.
           ++ apply elem_of_cons in Hin as [[= -> ->]|Hin].
              ** left. split; [done|]. rewrite lookup_insert_eq. congruence.
              ** right. by exists cfg, p.
      * destruct IH as (k & cfg & Hin & Hf). exists k, cfg. split; [by right|done].
    + exists k0, cfg0. split; [by left|]. by rewrite Hp0.
Qed.

(** [makeCertificateProfilesMap] fails exactly when no profile is
    configured or [NewProfile] turns one down; on success the map has an
    entry for each configured name and no other, and the entry holds that
    name and the profile [NewProfile] built. *)
Theorem makeCertificateProfilesMap_spec (profiles : gmap string issuance.ProfileConfig) :
  (is_Ok (makeCertificateProfilesMap profiles) = false ↔
     profiles = ∅ ∨ ∃ k cfg, profiles !! k = Some cfg ∧ is_Ok (NewProfile cfg) = false) ∧
  (∀ m, makeCertificateProfilesMap profiles = Ok m →
        ∀ k cp, m !! k = Some cp ↔
                ∃ cfg p, profiles !! k = Some cfg ∧ NewProfile cfg = Ok p
                         ∧ cp = {| name := k; profile := Some p |}).
Proof.
  unfold makeCertificateProfilesMap.
  case_bool_decide as Hsz.
  { assert (profiles = ∅) as -> by (apply map_size_empty_iff; lia).
    split; [|done]. simpl. split; eauto. }
  pose proof (makeCertificateProfilesMap_loop_spec (map_to_list profiles) ∅
                (NoDup_fst_map_to_list profiles)) as Hl.
  destruct (makeCertificateProfilesMap_loop (map_to_list profiles) ∅) as [m|e].
  - destruct Hl as [Hall Hl]. split.
    + simpl. split; [done|]. intros [->|(k & cfg & Hk & Hf)].
      * rewrite map_size_empty in Hsz. lia.
      * apply elem_of_map_to_list in Hk. apply Hall in Hk. congruence.
    + intros m' [= <-] k cp. rewrite Hl. split.
      * intros [[_ Hm]|(cfg & p & Hin & Hp & ->)]; [done|].
        exists cfg, p. by rewrite <- elem_of_map_to_list.
      * intros (cfg & p & Hk & Hp & ->). right. exists cfg, p.
        by rewrite elem_of_map_to_list.
  - split; [|done]. simpl. split; [|done]. intros _. right.
    destruct Hl as (k & cfg & Hin & Hf). exists k, cfg.
    by rewrite <- elem_of_map_to_list.
Qed.

Lemma makeIssuerMaps_Ok (boulderIssuers : list issuance.Issuer) (m : issuerMaps) :
  makeIssuerMaps boulderIssuers = Ok m →
  (∀ alg, byAlg m !! alg = entryOf (activeIssuers alg boulderIssuers)) ∧
  activeIssuers x509.ECDSA boulderIssuers ≠ [] ∧
  activeIssuers x509.RSA boulderIssuers ≠ [].
Proof.
  unfold makeIssuerMaps.
  pose proof (makeIssuerMaps_loop_spec boulderIssuers [] ∅ ∅ mapsOf_empty) as Hl.
  simpl in Hl. specialize (Hl (NoDup_nil_2)).
  destruct (makeIssuerMaps_loop boulderIssuers ∅ ∅) as [[A B]|e]; [|done].
  destruct Hl as [_ [_ HA]]. rewrite !HA.
  destruct (noIssuers (entryOf (activeIssuers x509.ECDSA boulderIssuers))) eqn:E1; [done|].
  destruct (noIssuers (entryOf (activeIssuers x509.RSA boulderIssuers))) eqn:E2; [done|].
  intros [= <-]. simpl. split; [done|]. split.
  - intros Hn. apply noIssuers_entryOf in Hn. congruence.
  - intros Hn. apply noIssuers_entryOf in Hn. congruence.
Qed.

Lemma makeIssuerMaps_byNameID (boulderIssuers : list issuance.Issuer) (m : issuerMaps) :
  makeIssuerMaps boulderIssuers = Ok m →
  ∀ id i, byNameID m !! id = Some i ↔ i ∈ boulderIssuers ∧ issuance.NameID_ i = id.
Proof.
  unfold makeIssuerMaps.
  pose proof (makeIssuerMaps_loop_spec boulderIssuers [] ∅ ∅ mapsOf_empty) as Hl.
  simpl in Hl. specialize (Hl (NoDup_nil_2)).
  destruct (makeIssuerMaps_loop boulderIssuers ∅ ∅) as [[A B]|e]; [|done].
  destruct Hl as [_ [HB _]].
  destruct (noIssuers _); [done|]. destruct (noIssuers _); [done|].
  intros [= <-]. simpl. exact HB.
Qed.
End MoreStartup.

(** A CA the constructor accepted never lacks an issuer for an RSA or
    ECDSA request: once the CSR passed the policy check,
    [issuePrecertificateInner] picks among the active issuers of the
    CSR's key type, of which there is at least one. *)
Theorem constructed_CA_finds_issuer `{GoLib} `{CALib} {S} (h : handler S)
        sctService boulderIssuers certificateProfiles serialPrefix maxNames
        (ca : certificateAuthorityImpl) (issueReq : capb.IssueCertificateRequest)
        (certProfile : certProfileWithID) (serialBigInt : N)
        (notBefore notAfter : Time) (s : S) (csr : x509.CertificateRequest) :
  let t := trace_of h (issuePrecertificateInner ca issueReq certProfile
                         serialBigInt notBefore notAfter) s in
  NewCertificateAuthorityImpl sctService boulderIssuers certificateProfiles
    serialPrefix maxNames = Ok ca →
  ParseCertificateRequest (capb.Csr issueReq) = Ok csr →
  x509.PublicKeyAlgorithm_ csr = x509.RSA
  ∨ x509.PublicKeyAlgorithm_ csr = x509.ECDSA →
  verifyAnswers t = [None] →
  pickBounds t
  = [length (activeIssuers (x509.PublicKeyAlgorithm_ csr) boulderIssuers)] ∧
  (0 < length (activeIssuers (x509.PublicKeyAlgorithm_ csr) boulderIssuers))%nat.
Proof.
  intros t Hca Hcsr Halg. subst t.
  assert (Hpool : byAlg (issuers ca) !! x509.PublicKeyAlgorithm_ csr
                  = Some (activeIssuers (x509.PublicKeyAlgorithm_ csr) boulderIssuers)
                  ∧ activeIssuers (x509.PublicKeyAlgorithm_ csr) boulderIssuers ≠ []).
  { unfold NewCertificateAuthorityImpl in Hca.
    destruct (_ || _); [done|]. case_bool_decide; [done|].
    destruct (makeCertificateProfilesMap _); [|done].
    destruct (makeIssuerMaps boulderIssuers) as [m|] eqn:Hm; [|done].
    injection Hca as <-. simpl.
    apply makeIssuerMaps_Ok in Hm as (HA & He & Hr). rewrite HA.
    destruct Halg as [-> | ->].
    - split; [|done]. by destruct (activeIssuers x509.RSA boulderIssuers).
    - split; [|done]. by destruct (activeIssuers x509.ECDSA boulderIssuers). }
  destruct Hpool as [Hpool Hne].
  unfold_ca. rewrite Hcsr. reduce.
  step h. destruct r as [err|]; reduce.
  { steps h. intros Hv. discriminate Hv. }
  rewrite Hpool.
  destruct (activeIssuers (x509.PublicKeyAlgorithm_ csr) boulderIssuers) as [|i0 pool];
    [done|].
  steps h; intros _; (split; [done|simpl; lia]).
Qed.

(** The issuer of a precertificate can be found again for the final
    certificate: in a CA the constructor accepted, the NameID written to
    the precertificate row is the key of [issuers.byNameID] under which the
    issuer that prepared the precertificate is registered, and that issuer
    is one of the configured issuers and active. *)
Theorem precertificate_issuer_is_registered `{GoLib} `{CALib} {S} (h : handler S)
        sctService boulderIssuers certificateProfiles serialPrefix maxNames
        (ca : certificateAuthorityImpl) (issueReq : capb.IssueCertificateRequest)
        (certProfile : certProfileWithID) (serialBigInt : N)
        (notBefore notAfter : Time) (s : S) (req : sapb.AddCertificateRequest) :
  let t := trace_of h (issuePrecertificateInner ca issueReq certProfile
                         serialBigInt notBefore notAfter) s in
  NewCertificateAuthorityImpl sctService boulderIssuers certificateProfiles
    serialPrefix maxNames = Ok ca →
  req ∈ addPrecertificateRequests t →
  ∃ issuer,
    prepareIssuers t = [issuer] ∧
    issuer ∈ boulderIssuers ∧ issuance.IsActive issuer = true ∧
    byNameID (issuers ca) !! sapb.IssuerNameID req = Some issuer.
Proof.
  intros t Hca Hin.
  assert (Hrow : ∃ alg pool idx issuer,
             byAlg (issuers ca) !! alg = Some pool ∧ pool !! idx = Some issuer ∧
             prepareIssuers t = [issuer] ∧
             sapb.IssuerNameID req = issuance.NameID_ issuer).
  { clear Hca. revert Hin. subst t. unfold_ca.
    steps h; intros Hin; elems Hin; simpl; eexists _, _, _, _; repeat split; done. }
  destruct Hrow as (alg & pool & idx & issuer & Hpool & Hidx & Hprep & Hid).
  exists issuer. split; [exact Hprep|].
  unfold NewCertificateAuthorityImpl in Hca.
  destruct (_ || _); [done|]. case_bool_decide; [done|].
  destruct (makeCertificateProfilesMap _); [|done].
  destruct (makeIssuerMaps boulderIssuers) as [m|] eqn:Hm; [|done].
  injection Hca as <-. simpl in *.
  pose proof (makeIssuerMaps_byNameID _ _ Hm) as HB.
  apply makeIssuerMaps_Ok in Hm as (HA & _ & _).
  rewrite HA in Hpool.
  assert (Hp : pool = activeIssuers alg boulderIssuers).
  { destruct (activeIssuers alg boulderIssuers); simpl in Hpool; congruence. }
  subst pool. apply list_elem_of_lookup_2 in Hidx.
  apply list_elem_of_filter in Hidx as [[Hact _] Hmem].
  split; [exact Hmem|]. split; [exact Hact|].
  rewrite Hid. apply HB. by split.
Qed.

Lemma precertificate_issuer_is_registered_witness :
  ∃ issuer,
    issuer ∈ sampleIssuers ∧
    byNameID (issuers sampleCA) !! issuance.NameID_ issuer = Some issuer.
Proof.
  pose (t := trace_of (sampleWorld healthy)
               (sampleIssuePrecertificateInner sampleCA sampleRequest sampleProfile
                  0x7f01 0%Z 10000%Z) 1000%Z).
  destruct (addPrecertificateRequests t) as [|req l] eqn:E;
    [vm_compute in E; discriminate|].
  assert (Hin : req ∈ addPrecertificateRequests t) by (rewrite E; left).
  assert (Hca : @NewCertificateAuthorityImpl sampleCALib (Some sctProvider) sampleIssuers
                  sampleProfiles x7f 100%Z = Ok sampleCA)
    by (vm_compute; reflexivity).
  destruct (@precertificate_issuer_is_registered asciiLib sampleCALib Z
              (sampleWorld healthy) (Some sctProvider) sampleIssuers sampleProfiles
              x7f 100%Z sampleCA sampleRequest sampleProfile 0x7f01%N 0%Z 10000%Z
              1000%Z req Hca Hin) as (issuer & Hprep & Hmem & _ & Hby).
  exists issuer. split; [exact Hmem|].
  assert (Hid : sapb.IssuerNameID req = issuance.NameID_ issuer).
  { change (prepareIssuers t = [issuer]) in Hprep.
    revert Hprep. vm_compute in E. injection E as <- _.
    vm_compute. intros [= <-]. reflexivity. }
  rewrite <- Hid. exact Hby.
Defined.

(* --------------------------------------------------------------------- *)
(** ** The request event of the web front end *)
(* --------------------------------------------------------------------- *)

Section RequestEventFacts.
Context {float64 Value Arg : Type}.
Context (Sprintf : string → list Arg → string).
Context (Marshal : @web.RequestEvent float64 Value → Result string).
Context (millis : float64 → Z).
Context (formatMarshalError : error → string).

Lemma act_keeps_ok (e : @web.RequestEvent float64 Value) (a : @web.action Arg) :
  web.consistent e → web.consistent (web.act Sprintf e a).
Proof.
  intros Hok. destruct a as [msg args|]; simpl; [done|].
  unfold web.Suppress. case_bool_decide as Hlen; [|done].
  intros _. simpl. by destruct (web.InternalErrors e).
Qed.

Lemma act_keeps_errors (e : @web.RequestEvent float64 Value) (a : @web.action Arg) :
  web.InternalErrors e ≠ [] → web.InternalErrors (web.act Sprintf e a) ≠ [].
Proof.
  intros Hne. destruct a as [msg args|]; simpl.
  - by destruct (web.InternalErrors e).
  - unfold web.Suppress. by case_bool_decide.
Qed.

(** Logging an error takes precedence over suppressing the event: however
    [AddError] and [Suppress] are interleaved, an event that was not
    suppressed with an error to begin with and has an internal error at
    the end is written to the log. *)
Theorem internal_errors_are_logged (e : @web.RequestEvent float64 Value) (actions : list (@web.action Arg)) :
  (web.suppressed e = true → web.InternalErrors e = []) →
  web.InternalErrors (fold_left (web.act Sprintf) actions e) ≠ [] →
  is_Some (web.logEvent Marshal millis formatMarshalError
             (fold_left (web.act Sprintf) actions e)).
Proof.
  intros Hok Herr.
  assert (Hfinal : web.consistent (fold_left (web.act Sprintf) actions e)).
  { clear Herr. revert e Hok. induction actions as [|a actions IH]; intros e Hok;
      simpl; [done|]. apply IH. by apply act_keeps_ok. }
  unfold web.logEvent.
  destruct (web.suppressed (fold_left (web.act Sprintf) actions e)) eqn:Hs.
  - exfalso. apply Herr. apply Hfinal. exact Hs.
  - destruct (Marshal _); by eexists.
Qed.

(** [Suppress] after an error is a no-op, and an error recorded once is
    never lost: the messages are only ever appended to. *)
Theorem internal_errors_only_grow (e : @web.RequestEvent float64 Value) (actions : list (@web.action Arg)) :
  ∃ added, web.InternalErrors (fold_left (web.act Sprintf) actions e)
           = web.InternalErrors e ++ added.
Proof.
  revert e. induction actions as [|a actions IH]; intros e; simpl.
  - exists []. by rewrite app_nil_r.
  - destruct (IH (web.act Sprintf e a)) as [added ->].
    destruct a as [msg args|]; simpl.
    + exists (Sprintf msg args :: added). by rewrite <- app_assoc.
    + exists added. unfold web.Suppress. by case_bool_decide.
Qed.
End RequestEventFacts.

(* --------------------------------------------------------------------- *)
(** ** The further properties on the sample world *)
(* --------------------------------------------------------------------- *)

Lemma random_source_failure_witness :
  result_of (scriptedWorld (Some (errorString "entropy pool unavailable")) None healthy)
    (sampleIssueCertificate sampleCA sampleRequest) 1000%Z
  = Err (InternalServerError
           "failed to generate serial: entropy pool unavailable") ∧
  ops (trace_of (scriptedWorld (Some (errorString "entropy pool unavailable")) None healthy)
         (sampleIssueCertificate sampleCA sampleRequest) 1000%Z) = [].
Proof.
  destruct (@random_source_failure asciiLib sampleCALib Z
              (scriptedWorld (Some (errorString "entropy pool unavailable")) None healthy)
              sampleCA sampleRequest 1000%Z 17%nat
              (errorString "entropy pool unavailable"))
    as (Hr & Ho & _).
  - vm_compute. reflexivity.
  - split; [exact Hr|exact Ho].
Defined.

Lemma one_serial_per_precertificate_witness :
  ∃ req serial,
    req ∈ prepareRequests
            (trace_of (sampleWorld healthy)
               (sampleIssuePrecertificate sampleCA sampleProfile sampleRequest) 1000%Z) ∧
    issuance.Serial req = big.Bytes serial ∧
    readySerials
      (trace_of (sampleWorld healthy)
         (sampleIssuePrecertificate sampleCA sampleProfile sampleRequest) 1000%Z)
    = [@SerialToString sampleCALib serial].
Proof.
  pose (t := trace_of (sampleWorld healthy)
               (sampleIssuePrecertificate sampleCA sampleProfile sampleRequest) 1000%Z).
  destruct (prepareRequests t) as [|req l] eqn:E; [vm_compute in E; discriminate|].
  assert (Hin : req ∈ prepareRequests t) by (rewrite E; left).
  destruct (@one_serial_per_precertificate asciiLib sampleCALib Z (sampleWorld healthy)
              sampleCA sampleProfile sampleRequest 1000%Z req Hin)
    as (serial & created & Hadd & Hser & _ & Hready).
  exists req, serial. split; [exact Hin|]. split; [exact Hser|].
  assert (Hone : ∃ r, readySerials t = [r]) by (vm_compute; eauto).
  destruct Hone as [r Hr].
  change (readySerials t = [@SerialToString sampleCALib serial]).
  rewrite Hr. f_equal.
  apply Hready. change (r ∈ readySerials t). rewrite Hr. left.
Defined.

Lemma persisted_certificate_is_deterministic_witness :
  ∃ req,
    req ∈ addCertificateRequests
            (trace_of (sampleWorld healthy)
               (sampleIssueCertificate sampleCA sampleRequest) 1000%Z) ∧
    sapb.Der req
    ∈ issuedDERs (trace_of (sampleWorld healthy)
                    (sampleIssueCertificate sampleCA sampleRequest) 1000%Z).
Proof.
  pose (t := trace_of (sampleWorld healthy)
               (sampleIssueCertificate sampleCA sampleRequest) 1000%Z).
  destruct (addCertificateRequests t) as [|req l] eqn:E; [vm_compute in E; discriminate|].
  assert (Hin : req ∈ addCertificateRequests t) by (rewrite E; left).
  exists req. split; [exact Hin|].
  exact (proj1 (@persisted_certificate_is_deterministic asciiLib sampleCALib Z
                  (sampleWorld healthy) sampleCA sampleRequest 1000%Z req Hin)).
Defined.

Lemma ready_serial_is_deterministic_witness :
  ∃ ready lint precert,
    ready ∈ readySerials
              (trace_of (sampleWorld healthy)
                 (sampleIssuePrecertificate sampleCA sampleProfile sampleRequest) 1000%Z) ∧
    tbsCertIsDeterministic lint precert = None.
Proof.
  pose (t := trace_of (sampleWorld healthy)
               (sampleIssuePrecertificate sampleCA sampleProfile sampleRequest) 1000%Z).
  destruct (readySerials t) as [|ready l] eqn:E; [vm_compute in E; discriminate|].
  assert (Hin : ready ∈ readySerials t) by (rewrite E; left).
  destruct (@ready_serial_is_deterministic asciiLib sampleCALib Z (sampleWorld healthy)
              sampleCA sampleProfile sampleRequest 1000%Z ready Hin)
    as (lint & precert & _ & _ & _ & Hd).
  exists ready, lint, precert. split; [exact Hin|exact Hd].
Defined.

Lemma precertificate_row_witness :
  ∃ req,
    req ∈ addPrecertificateRequests
            (trace_of (sampleWorld healthy)
               (sampleIssuePrecertificateInner sampleCA sampleRequest sampleProfile
                  0x7f01 0%Z 10000%Z) 1000%Z) ∧
    sapb.OcspNotReady req = true.
Proof.
  pose (t := trace_of (sampleWorld healthy)
               (sampleIssuePrecertificateInner sampleCA sampleRequest sampleProfile
                  0x7f01 0%Z 10000%Z) 1000%Z).
  destruct (addPrecertificateRequests t) as [|req l] eqn:E;
    [vm_compute in E; discriminate|].
  assert (Hin : req ∈ addPrecertificateRequests t) by (rewrite E; left).
  exists req. split; [exact Hin|].
  exact (proj1 (@precertificate_row asciiLib sampleCALib Z (sampleWorld healthy)
                  sampleCA sampleRequest sampleProfile 0x7f01%N 0%Z 10000%Z 1000%Z
                  req Hin)).
Defined.

Lemma no_issuer_for_algorithm_witness :
  result_of (sampleWorld healthy)
    (sampleIssuePrecertificateInner (sampleCAWith []) sampleRequest sampleProfile
       0x7f01 0%Z 10000%Z) 1000%Z
  = Err (InternalServerError "no issuers found for public key algorithm RSA").
Proof.
  refine (proj1 (@no_issuer_for_algorithm asciiLib sampleCALib Z (sampleWorld healthy)
                   (sampleCAWith []) sampleRequest sampleProfile 0x7f01%N 0%Z
                   10000%Z 1000%Z sampleCSR _ _ _)).
  - vm_compute. reflexivity.
  - vm_compute. reflexivity.
  - vm_compute. reflexivity.
Defined.

Lemma VerifyCSR_error_passes_through_witness :
  result_of (scriptedWorld None (Some (BoulderError berrors.Malformed "policy forbids issuing for name")) healthy)
    (sampleIssuePrecertificateInner sampleCA sampleRequest sampleProfile
       0x7f01 0%Z 10000%Z) 1000%Z
  = Err (BoulderError berrors.Malformed "policy forbids issuing for name").
Proof.
  refine (proj1 (@VerifyCSR_error_passes_through asciiLib sampleCALib Z
                   (scriptedWorld None (Some (BoulderError berrors.Malformed
                                                "policy forbids issuing for name")) healthy)
                   sampleCA sampleRequest sampleProfile 0x7f01%N 0%Z 10000%Z 1000%Z
                   (BoulderError berrors.Malformed "policy forbids issuing for name") _)).
  vm_compute. reflexivity.
Defined.

Lemma GetSCTs_failure_witness :
  result_of (sampleWorld (answering OpGetSCTs (Some (errorString "no SCTs"))))
    (sampleIssueCertificate sampleCA sampleRequest) 1000%Z
  = Err (errorString "no SCTs").
Proof.
  refine (proj1 (@GetSCTs_failure asciiLib sampleCALib Z
                   (sampleWorld (answering OpGetSCTs (Some (errorString "no SCTs"))))
                   sampleCA sampleRequest 1000%Z (errorString "no SCTs") _)).
  vm_compute. reflexivity.
Defined.

Lemma precertificate_signing_failure_witness :
  signErrors
    (trace_of (sampleWorld (answering OpIssue (Some (pkcs11Error 5))))
       (sampleIssuePrecertificate sampleCA sampleProfile sampleRequest) 1000%Z)
  = ["HSM"].
Proof.
  refine (proj2 (proj2 (proj2 (proj2
           (@precertificate_signing_failure asciiLib sampleCALib Z
              (sampleWorld (answering OpIssue (Some (pkcs11Error 5))))
              sampleCA sampleProfile sampleRequest 1000%Z (pkcs11Error 5) _))))).
  vm_compute. reflexivity.
Defined.

Lemma final_certificate_returned_witness :
  issuedDERs
    (trace_of (sampleWorld healthy)
       (sampleIssueCertificateForPrecertificate sampleCA sampleProfile
          (sampleDER xbb) [] 1 2) 1000%Z)
  = [sampleDER xbb].
Proof.
  refine (proj1 (@final_certificate_returned asciiLib sampleCALib Z (sampleWorld healthy)
                   sampleCA sampleProfile (sampleDER xbb) [] 1%Z 2%Z 1000%Z
                   (sampleDER xbb) _)).
  vm_compute. reflexivity.
Defined.

Lemma IssueCertificate_gate_witness :
  trace_of (sampleWorld healthy) (sampleIssueCertificate sampleCA sampleRequest) 1000%Z
  ≠ [] ∧
  is_Some (certProfiles sampleCA !! capb.CertProfileName sampleRequest).
Proof.
  assert (Hne : trace_of (sampleWorld healthy)
                  (sampleIssueCertificate sampleCA sampleRequest) 1000%Z ≠ [])
    by (vm_compute; discriminate).
  split; [exact Hne|].
  exact (proj2 (proj2 (proj2 (proj2
           (@IssueCertificate_gate asciiLib sampleCALib Z (sampleWorld healthy)
              sampleCA sampleRequest 1000%Z Hne))))).
Defined.

Lemma tbsCertIsDeterministic_trailing_bytes_witness :
  tbsCertIsDeterministic (sampleDER xaa ++ [x00; x01]) (sampleDER xbb ++ [xff]) = None.
Proof.
  apply (tbsCertIsDeterministic_trailing_bytes (sampleDER xaa) (sampleDER xbb)).
  vm_compute. reflexivity.
Defined.

Lemma Normalize_set_witness :
  @identifier.Normalize asciiLib sampleIdents
  = @identifier.Normalize asciiLib (rev sampleIdents ++ sampleIdents).
Proof.
  apply (@Normalize_set asciiLib).
  - unfold sampleIdents.
    repeat (apply Forall_cons_2; [unfold identifier.registered; simpl; auto|]).
    apply Forall_nil_2.
  - unfold sampleIdents. simpl.
    repeat (apply Forall_cons_2; [unfold identifier.registered; simpl; auto|]).
    apply Forall_nil_2.
  - intros x. rewrite map_app, elem_of_app, map_rev. split.
    + intros H. right. exact H.
    + intros [H|H]; [|exact H].
      apply list_elem_of_In in H. apply list_elem_of_In.
      exact (proj2 (in_rev _ _) H).
Defined.

Lemma FromCSR_names_sorted_witness :
  StronglySorted (λ a b, strings.less a b = true) ["a.example"; "b.example"].
Proof.
  apply (@FromCSR_names_sorted asciiLib "B.example" ["b.example"; "A.example"] []
           ["a.example"; "b.example"] []).
  vm_compute. reflexivity.
Defined.

Lemma FromCSR_ToValues_error_witness :
  ∃ ip, ip ∈ [[] : IP] ∧ @ParseIP asciiLib (@strings.ToLower asciiLib (@IP_String asciiLib ip)) = None.
Proof.
  destruct (@FromCSR_ToValues_error asciiLib "" ["a.example"] [[]]
              (errorString "parsing IP address: ")) as (ip & Hin & Hp & _).
  - vm_compute. reflexivity.
  - exists ip. split; [exact Hin|exact Hp].
Defined.

Lemma serial_determines_random_witness :
  replicate 17 xab = replicate 17 xab.
Proof.
  apply (@serial_determines_random asciiLib sampleCALib Z Z
           (sampleWorld healthy) (sampleWorld healthy)
           (Some sctProvider) sampleIssuers sampleProfiles x7f 100%Z
           (sampleCAWith [sampleRSA]) 1000%Z 2000%Z 17%nat 17%nat).
  - vm_compute. reflexivity.
  - vm_compute. reflexivity.
  - vm_compute. reflexivity.
  - vm_compute. reflexivity.
Defined.

Lemma constructed_CA_finds_issuer_witness :
  pickBounds
    (trace_of (sampleWorld healthy)
       (sampleIssuePrecertificateInner sampleCA sampleRequest sampleProfile
          0x7f01 0%Z 10000%Z) 1000%Z)
  = [length (activeIssuers (x509.PublicKeyAlgorithm_ sampleCSR) sampleIssuers)].
Proof.
  refine (proj1 (@constructed_CA_finds_issuer asciiLib sampleCALib Z (sampleWorld healthy)
                   (Some sctProvider) sampleIssuers sampleProfiles x7f 100%Z
                   (sampleCAWith [sampleRSA]) sampleRequest sampleProfile 0x7f01%N
                   0%Z 10000%Z 1000%Z sampleCSR _ _ _ _)).
  - vm_compute. reflexivity.
  - vm_compute. reflexivity.
  - left. reflexivity.
  - vm_compute. reflexivity.
Defined.

Lemma internal_errors_are_logged_witness :
  is_Some (web.logEvent (λ _, Ok "{}") (λ latency, latency) Error
             (fold_left (web.act sampleSprintf) sampleActions sampleEvent)).
Proof.
  apply (internal_errors_are_logged sampleSprintf (λ _, Ok "{}") (λ latency, latency)
           Error sampleEvent sampleActions).
  - intros Hs. vm_compute in Hs. discriminate.
  - vm_compute. discriminate.
Defined.
